(** * redimo: sorted sets and geo indexes on a wide-column store

    A shallow embedding of [sorted_sets.go] and of the geo engine, over an
    executable model of the store collaborator (equality lookup, conditional
    single-item writes, paginated range queries on the primary key or on one
    secondary sort attribute). *)

From Stdlib Require Import ZArith String Ascii List Bool Lia.
From Stdlib Require Import Floats.SpecFloat.
From stdpp Require Import gmap strings list.

Local Open Scope string_scope.
Local Open Scope Z_scope.

(** ** Machine integers and floats *)

(** Go's [int64]: two's complement, wrapping on overflow. *)
Definition int64 (z : Z) : Z := (z + 2 ^ 63) mod 2 ^ 64 - 2 ^ 63.

Definition in_int64 (z : Z) : Prop := - 2 ^ 63 <= z < 2 ^ 63.

(** Go's [float64]: IEEE 754 binary64, as the standard library's
    specification floats with precision 53 and maximal exponent 1024. *)
Abbreviation float64 := spec_float.

Definition f64_add : float64 -> float64 -> float64 := SFadd 53 1024.
Definition f64_mul : float64 -> float64 -> float64 := SFmul 53 1024.
Definition f64_div : float64 -> float64 -> float64 := SFdiv 53 1024.
Definition f64_le : float64 -> float64 -> bool := SFleb.

(** The float nearest to [m * 2 ^ e]; [f64_of_Z z] is the constant [z]. *)
Definition f64_ldexp (m e : Z) : float64 := binary_normalize 53 1024 m e false.
Definition f64_of_Z (z : Z) : float64 := f64_ldexp z 0.

Definition f64_zero : float64 := S754_zero false.

Definition is_nan (x : float64) : bool :=
  match x with S754_nan => true | _ => false end.

(** ** Results of a call: a returned value, or a Go panic *)

Inductive panic_value : Type :=
| ErrNaN (msg : string)
| IndexOutOfRange.

Inductive Outcome (A : Type) : Type :=
| Ret (a : A)
| Panic (p : panic_value)
| OutOfFuel.

Arguments Ret {A} a.
Arguments Panic {A} p.
Arguments OutOfFuel {A}.

(** ** math/big *)

Module big.

(** [*big.Float]: sign, mantissa and binary exponent of any size, signed
    zeros and infinities, and no NaN. *)
Inductive Float : Type :=
| Zero (neg : bool)
| Inf (neg : bool)
| Finite (neg : bool) (mant : positive) (exp : Z).

(** [big.NewFloat(x)] panics with [ErrNaN] when [x] is a NaN. *)
Definition NewFloat (x : float64) : Outcome Float :=
  match x with
  | S754_nan => Panic (ErrNaN "NewFloat(NaN)")
  | S754_zero s => Ret (Zero s)
  | S754_infinity s => Ret (Inf s)
  | S754_finite s m e => Ret (Finite s m e)
  end.

(** [x.Float64()]: the nearest [float64] (the accuracy is dropped by every
    caller). *)
Definition Float64 (x : Float) : float64 :=
  match x with
  | Zero s => S754_zero s
  | Inf s => S754_infinity s
  | Finite s m e => binary_round 53 1024 s m e
  end.

End big.

(** ** Errors *)

Inductive error : Type :=
| ConditionalCheckFailedException
| ValidationException (msg : string)
| StoreError (msg : string)
| Errorf (msg : string).

(** Modelled from the spec: [conditionFailureError] is not among the sources;
    section 7 has ConditionFailed as "a conditional write missed its
    precondition", told apart from every other store error. *)
Definition conditionFailureError (err : option error) : bool :=
  match err with
  | Some ConditionalCheckFailedException => true
  | _ => false
  end.

(** ** The store collaborator *)

(** Modelled from the spec: the attribute names [pk], [sk], [sk2] and
    [skGeoCell] are constants that are not among the sources.  Section 3 has
    the collection key as partition key, the member name as sort key, and a
    secondary sort attribute for the encoded score; the cell of a position is
    written as a number and the score as a string, so the cell index is on an
    attribute of its own. *)
Inductive attr : Type := pk | sk | sk2 | skGeoCell.

#[global] Instance attr_eq_dec : EqDecision attr.
Proof. solve_decision. Defined.

Definition attr_eqb (a b : attr) : bool := bool_decide (a = b).

(** Attribute values: strings ([S]) and numbers ([N]). *)
Inductive AttributeValue : Type :=
| AV_S (s : string)
| AV_N (n : Z).

Definition AV_eqb (u v : AttributeValue) : bool :=
  match u, v with
  | AV_S a, AV_S b => String.eqb a b
  | AV_N a, AV_N b => Z.eqb a b
  | _, _ => false
  end.

(** Strings compare byte-wise, numbers numerically. *)
Definition AV_leb (u v : AttributeValue) : bool :=
  match u, v with
  | AV_S a, AV_S b => String.leb a b
  | AV_N a, AV_N b => Z.leb a b
  | _, _ => false
  end.

Record Item : Type := mkItem {
  item_pk : string;
  item_sk : string;
  item_sk2 : option string;
  item_geo : option Z
}.

Definition has_value {A : Type} (o : option A) : bool :=
  match o with Some _ => true | None => false end.

Definition item_attr (it : Item) (a : attr) : option AttributeValue :=
  match a with
  | pk => Some (AV_S (item_pk it))
  | sk => Some (AV_S (item_sk it))
  | sk2 => option_map AV_S (item_sk2 it)
  | skGeoCell => option_map AV_N (item_geo it)
  end.

(** Conditions of a conditional write, and key conditions of a query, as the
    expression builder assembles them. *)
Inductive Condition : Type :=
| attribute_not_exists (a : attr)
| attribute_exists (a : attr)
| attribute_equals (a : attr) (v : AttributeValue).

Inductive KeyCondition : Type :=
| KeyOnly
| Between (a : attr) (lo hi : AttributeValue)
| AtLeast (a : attr) (lo : AttributeValue)
| AtMost (a : attr) (hi : AttributeValue).

Inductive Index : Type := Primary | LSI (a : attr).

Definition index_attr (ix : Index) : attr :=
  match ix with Primary => sk | LSI a => a end.

Record QueryInput : Type := mkQuery {
  q_key : string;
  q_condition : KeyCondition;
  q_index : Index;
  q_forward : bool;
  q_limit : option Z;
  q_exclusive_start : option nat;
  q_select_count : bool
}.

Record QueryOutput : Type := mkOutput {
  Items : list Item;
  Count : Z;
  LastEvaluatedKey : option nat
}.

Inductive Request : Type :=
| GetItemRequest (key member : string) (projection : list attr)
| UpdateItemRequest (key member : string) (a : attr) (v : AttributeValue)
    (conditions : list Condition)
| QueryRequest (q : QueryInput).

(** What the environment does when a request arrives: serve it, fail it, or
    let another client's write land just before it is served. *)
Inductive Event : Type :=
| Serve
| Fault (msg : string)
| Interfere (key member : string) (a : attr) (v : AttributeValue).

Record Store : Type := mkStore {
  items : list Item;
  pageCap : positive;
  script : list Event;
  log : list Request
}.

(** *** Serving requests

    The table holds at most one item per (partition key, sort key).  A
    secondary index lists the items that carry its attribute, ordered by that
    attribute and then by sort key. *)

Definition same_key (key member : string) (it : Item) : bool :=
  String.eqb (item_pk it) key && String.eqb (item_sk it) member.

Definition find_item (key member : string) (tbl : list Item) : option Item :=
  List.find (same_key key member) tbl.

Definition set_attr (a : attr) (v : AttributeValue) (it : Item) : Item :=
  match a, v with
  | sk2, AV_S s => mkItem (item_pk it) (item_sk it) (Some s) (item_geo it)
  | skGeoCell, AV_N n => mkItem (item_pk it) (item_sk it) (item_sk2 it) (Some n)
  | _, _ => it
  end.

Fixpoint put_attr (key member : string) (a : attr) (v : AttributeValue)
    (tbl : list Item) : list Item :=
  match tbl with
  | [] => [set_attr a v (mkItem key member None None)]
  | it :: rest =>
      if same_key key member it then set_attr a v it :: rest
      else it :: put_attr key member a v rest
  end.

Definition holds (c : Condition) (found : option Item) : bool :=
  match c, found with
  | attribute_not_exists a, Some it => negb (has_value (item_attr it a))
  | attribute_not_exists _, None => true
  | attribute_exists a, Some it => has_value (item_attr it a)
  | attribute_exists _, None => false
  | attribute_equals a v, Some it =>
      match item_attr it a with Some u => AV_eqb u v | None => false end
  | attribute_equals _ _, None => false
  end.

Definition project (projection : list attr) (found : option Item)
    : list (attr * AttributeValue) :=
  match found with
  | None => []
  | Some it =>
      let wanted := match projection with
                    | [] => [pk; sk; sk2; skGeoCell]
                    | _ => projection
                    end in
      List.flat_map (fun a => match item_attr it a with
                              | Some v => [(a, v)]
                              | None => []
                              end) wanted
  end.

Definition satisfies (c : KeyCondition) (it : Item) : bool :=
  match c with
  | KeyOnly => true
  | Between a lo hi =>
      match item_attr it a with
      | Some v => AV_leb lo v && AV_leb v hi
      | None => false
      end
  | AtLeast a lo =>
      match item_attr it a with Some v => AV_leb lo v | None => false end
  | AtMost a hi =>
      match item_attr it a with Some v => AV_leb v hi | None => false end
  end.

Definition entry_leb (a : attr) (x y : Item) : bool :=
  match item_attr x a, item_attr y a with
  | Some u, Some v =>
      if AV_eqb u v then String.leb (item_sk x) (item_sk y) else AV_leb u v
  | _, _ => true
  end.

Fixpoint insert_sorted (a : attr) (x : Item) (l : list Item) : list Item :=
  match l with
  | [] => [x]
  | y :: l' => if entry_leb a x y then x :: l else y :: insert_sorted a x l'
  end.

Definition sort_by (a : attr) (l : list Item) : list Item :=
  List.fold_right (insert_sorted a) [] l.

(** The rows of a collection that an index lists and a key condition keeps. *)
Definition selects (key : string) (c : KeyCondition) (ix : Index) (it : Item) : bool :=
  String.eqb (item_pk it) key
  && has_value (item_attr it (index_attr ix))
  && satisfies c it.

(** The entries of the index a query reads, in the order it reads them. *)
Definition entries (key : string) (c : KeyCondition) (ix : Index) (forward : bool)
    (tbl : list Item) : list Item :=
  let sorted := sort_by (index_attr ix) (List.filter (selects key c ix) tbl) in
  if forward then sorted else List.rev sorted.

Definition matching (q : QueryInput) (tbl : list Item) : list Item :=
  entries (q_key q) (q_condition q) (q_index q) (q_forward q) tbl.

(** One page: at most [Limit] entries and at most [pageCap] of them (the
    store's size limit on a page), read from the continuation point.  A
    continuation token is returned when the page stopped at [Limit] or before
    the end of the index.  The token is opaque to the client; here it is the
    number of entries already read. *)
Definition serve_query (q : QueryInput) (st : Store)
    : QueryOutput + error :=
  match q_limit q with
  | Some l =>
      if l <? 1 then inr (ValidationException "Limit")
      else
        let rest := List.skipn (default 0%nat (q_exclusive_start q))
                      (matching q (items st)) in
        let page := List.firstn (Nat.min (Pos.to_nat (pageCap st)) (Z.to_nat l)) rest in
        let next := (default 0%nat (q_exclusive_start q) + length page)%nat in
        inl (mkOutput (if q_select_count q then [] else page)
               (Z.of_nat (length page))
               (if (length page <? length rest)%nat
                   || (Z.of_nat (length page) =? l)
                then Some next else None))
  | None =>
      let rest := List.skipn (default 0%nat (q_exclusive_start q))
                    (matching q (items st)) in
      let page := List.firstn (Pos.to_nat (pageCap st)) rest in
      let next := (default 0%nat (q_exclusive_start q) + length page)%nat in
      inl (mkOutput (if q_select_count q then [] else page)
             (Z.of_nat (length page))
             (if (length page <? length rest)%nat then Some next else None))
  end.

Inductive Response : Type :=
| GetItemOutput (Item : list (attr * AttributeValue))
| UpdateItemOutput
| QueryResponse (out : QueryOutput)
| Failed (err : error).

Definition with_items (tbl : list Item) (st : Store) : Store :=
  mkStore tbl (pageCap st) (script st) (log st).

Definition serve (rq : Request) (st : Store) : Store * Response :=
  match rq with
  | GetItemRequest key member projection =>
      (st, GetItemOutput (project projection (find_item key member (items st))))
  | UpdateItemRequest key member a v conditions =>
      if List.forallb (fun c => holds c (find_item key member (items st))) conditions
      then (with_items (put_attr key member a v (items st)) st, UpdateItemOutput)
      else (st, Failed ConditionalCheckFailedException)
  | QueryRequest q =>
      match serve_query q st with
      | inl out => (st, QueryResponse out)
      | inr err => (st, Failed err)
      end
  end.

(** [Send]: the request is logged, the next event of the script is consumed,
    and the request is served or failed accordingly. *)
Definition Send (rq : Request) (st : Store) : Store * Response :=
  let logged := (log st ++ [rq])%list in
  match script st with
  | [] => serve rq (mkStore (items st) (pageCap st) [] logged)
  | Serve :: evs => serve rq (mkStore (items st) (pageCap st) evs logged)
  | Fault msg :: evs =>
      (mkStore (items st) (pageCap st) evs logged, Failed (StoreError msg))
  | Interfere key member a v :: evs =>
      serve rq (mkStore (put_attr key member a v (items st)) (pageCap st) evs logged)
  end.

(** A store whose environment neither fails nor interferes, after it has
    served one more request. *)
Definition logged (rq : Request) (st : Store) : Store :=
  mkStore (items st) (pageCap st) [] (log st ++ [rq])%list.

(** ** Calls against the store *)

Definition M (A : Type) : Type := Store -> Store * Outcome A.

Definition ret {A : Type} (a : A) : M A := fun st => (st, Ret a).

Definition bind {A B : Type} (m : M A) (k : A -> M B) : M B :=
  fun st =>
    match m st with
    | (st', Ret a) => k a st'
    | (st', Panic p) => (st', Panic p)
    | (st', OutOfFuel) => (st', OutOfFuel)
    end.

Definition lift {A : Type} (o : Outcome A) : M A := fun st => (st, o).

Notation "x <- m ;; k" := (bind m (fun x => k))
  (at level 100, m at next level, right associativity).

Definition GetItem (key member : string) (projection : list attr)
    : M (list (attr * AttributeValue) * option error) :=
  fun st =>
    match Send (GetItemRequest key member projection) st with
    | (st', GetItemOutput item) => (st', Ret (item, None))
    | (st', Failed err) => (st', Ret ([], Some err))
    | (st', _) => (st', Ret ([], Some (StoreError "response")))
    end.

Definition UpdateItem (key member : string) (a : attr) (v : AttributeValue)
    (conditions : list Condition) : M (option error) :=
  fun st =>
    match Send (UpdateItemRequest key member a v conditions) st with
    | (st', UpdateItemOutput) => (st', Ret None)
    | (st', Failed err) => (st', Ret (Some err))
    | (st', _) => (st', Ret (Some (StoreError "response")))
    end.

Definition Query (q : QueryInput) : M (QueryOutput + error) :=
  fun st =>
    match Send (QueryRequest q) st with
    | (st', QueryResponse out) => (st', Ret (inl out))
    | (st', Failed err) => (st', Ret (inr err))
    | (st', _) => (st', Ret (inr (StoreError "response")))
    end.

(** [aws.StringValue(item[a].S)]: the empty string when the attribute is
    missing or not a string. *)
Definition StringValue_S (item : list (attr * AttributeValue)) (a : attr) : string :=
  match List.find (fun p => attr_eqb (fst p) a) item with
  | Some (_, AV_S s) => s
  | _ => ""
  end.

(** The key condition on [attribute] for the bounds [min] and [max], where an
    empty bound leaves that side open. *)
Definition range_condition (attribute : attr) (min max : string) : KeyCondition :=
  if negb (String.eqb min "") && negb (String.eqb max "")
  then Between attribute (AV_S min) (AV_S max)
  else if negb (String.eqb min "") then AtLeast attribute (AV_S min)
  else if negb (String.eqb max "") then AtMost attribute (AV_S max)
  else KeyOnly.

(** [indexName]: the score index for [sk2], the table itself otherwise. *)
Definition index_for (attribute : attr) : Index :=
  if attr_eqb attribute sk2 then LSI sk2 else Primary.

(** Modelled from the spec: [Flags] and its method [has] are not among the
    sources; section 4.3 has the two flags "only-if-absent" and
    "only-if-present" of an add. *)
Inductive Flag : Type := IfNotExists | IfAlreadyExists.

Definition has (flags : list Flag) (f : Flag) : bool :=
  List.existsb (fun g => match f, g with
                         | IfNotExists, IfNotExists => true
                         | IfAlreadyExists, IfAlreadyExists => true
                         | _, _ => false
                         end) flags.

(** ** The sorted set engine ([sorted_sets.go]) *)

Section SortedSets.

(** The score codec is not among the sources: the engine is stated over any
    pair of codec functions. *)
Variable floatToLex : big.Float -> string.
Variable lexToFloat : string -> big.Float.

(** [floatToLex(big.NewFloat(score))], as every caller writes it. *)
Definition encode (score : float64) : M string :=
  b <- lift (big.NewFloat score) ;; ret (floatToLex b).

Definition decode (s : string) : float64 := big.Float64 (lexToFloat s).

Definition ZSCORE (key member : string) : M (float64 * bool * option error) :=
  resp <- GetItem key member [sk2] ;;
  let '(item, err) := resp in
  match err with
  | None =>
      if (0 <? length item)%nat
      then ret (decode (StringValue_S item sk2), true, None)
      else ret (f64_zero, false, None)
  | Some _ => ret (f64_zero, false, err)
  end.

(** [membersWithScores] is a Go map; [members] lists its entries in the
    order the [range] loop happens to visit them.  The named result [err]
    keeps the last value assigned to it. *)
Fixpoint ZADD_loop (key : string) (members : list (string * float64))
    (flags : list Flag) (savedCount : Z) (err : option error)
    : M (Z * option error) :=
  match members with
  | [] => ret (savedCount, err)
  | (member, score) :: rest =>
      lex <- encode score ;;
      err <- UpdateItem key member sk2 (AV_S lex)
               ((if has flags IfNotExists then [attribute_not_exists pk] else [])
                ++ (if has flags IfAlreadyExists then [attribute_exists pk] else []))%list ;;
      if conditionFailureError err then ZADD_loop key rest flags savedCount err
      else match err with
           | Some _ => ret (savedCount, err)
           | None => ZADD_loop key rest flags (int64 (savedCount + 1)) err
           end
  end.

Definition ZADD (key : string) (membersWithScores : list (string * float64))
    (flags : list Flag) : M (Z * option error) :=
  ZADD_loop key membersWithScores flags 0 None.

Fixpoint _zGeneralCount_loop (fuel : nat) (key : string) (condition : KeyCondition)
    (indexName : Index) (lastEvaluatedKey : option nat) (count : Z)
    : M (Z * option error) :=
  match fuel with
  | O => lift OutOfFuel
  | S fuel' =>
      resp <- Query (mkQuery key condition indexName true None lastEvaluatedKey true) ;;
      match resp with
      | inr err => ret (count, Some err)
      | inl out =>
          let count := int64 (count + Count out) in
          match LastEvaluatedKey out with
          | Some k => _zGeneralCount_loop fuel' key condition indexName (Some k) count
          | None => ret (count, None)
          end
      end
  end.

Definition _zGeneralCount (fuel : nat) (key min max : string) (attribute : attr)
    : M (Z * option error) :=
  _zGeneralCount_loop fuel key (range_condition attribute min max)
    (index_for attribute) None 0.

Definition ZCOUNT (fuel : nat) (key : string) (minScore maxScore : float64)
    : M (Z * option error) :=
  min <- encode minScore ;;
  max <- encode maxScore ;;
  _zGeneralCount fuel key min max sk2.

Fixpoint ZINCRBY_loop (fuel : nat) (key member : string) (delta : float64)
    (tries : Z) (newScore : float64) : M (float64 * option error) :=
  if tries <? 3 then
    match fuel with
    | O => lift OutOfFuel
    | S fuel' =>
        read <- ZSCORE key member ;;
        let '(oldScore, ok, err) := read in
        match err with
        | Some _ => ret (newScore, err)
        | None =>
            let newScore := f64_add oldScore delta in
            lex <- encode newScore ;;
            conditions <- (if ok : bool
                           then existing <- encode oldScore ;;
                                ret [attribute_equals sk2 (AV_S existing)]
                           else ret []) ;;
            err <- UpdateItem key member sk2 (AV_S lex) conditions ;;
            if conditionFailureError err
            then ZINCRBY_loop fuel' key member delta (tries + 1) newScore
            else ret (newScore, err)
        end
    end
  else ret (newScore,
            Some (Errorf ("too much contention on " ++ key ++ " / " ++ member))).

Definition ZINCRBY (key member : string) (delta : float64)
    : M (float64 * option error) :=
  ZINCRBY_loop 3 key member delta 0 f64_zero.





(** Modelled from the spec: [parseItem] is not among the sources; of an item
    it yields the member name (the sort key) and the encoded score (the
    secondary attribute), empty when the item has none. *)
Definition parseItem (item : Item) : string * string :=
  (item_sk item, default "" (item_sk2 item)).

(** The map a scan builds from the items it collects, in order. *)
Definition scores_of (l : list Item) (m : gmap string float64) : gmap string float64 :=
  List.fold_left (fun m item =>
                    <[fst (parseItem item) := decode (snd (parseItem item))]> m) l m.

(** [count] entries after the first [offset], all of them when [count <= 0]. *)
Definition window (offset count : Z) (l : list Item) : list Item :=
  if count >? 0
  then List.firstn (Z.to_nat count) (List.skipn (Z.to_nat offset) l)
  else List.skipn (Z.to_nat offset) l.

Definition floatValues (floatValuedMap : gmap string float64) : list float64 :=
  (map_to_list floatValuedMap).*2.

(** The variables of the scan that the loop over a page updates. *)
Record scan : Type := mkScan {
  sc_members : gmap string float64;
  sc_index : Z;
  sc_remaining : Z
}.

Definition collect (offset : Z) (s : scan) (item : Item) : scan :=
  if sc_index s >=? offset
  then mkScan (<[fst (parseItem item) := decode (snd (parseItem item))]> (sc_members s))
         (int64 (sc_index s + 1)) (int64 (sc_remaining s - 1))
  else mkScan (sc_members s) (int64 (sc_index s + 1)) (sc_remaining s).

Definition queryLimit (offset : Z) (s : scan) : option Z :=
  if sc_remaining s >? 0
  then Some (int64 (int64 (sc_remaining s + offset) - sc_index s))
  else None.

Fixpoint _zGeneralRange_loop (fuel : nat) (key start stop : string) (offset : Z)
    (forward : bool) (attribute : attr) (lastKey : option nat) (s : scan)
    : M (gmap string float64 * option error) :=
  match fuel with
  | O => lift OutOfFuel
  | S fuel' =>
      resp <- Query (mkQuery key (range_condition attribute start stop)
                       (index_for attribute) forward (queryLimit offset s)
                       lastKey false) ;;
      match resp with
      | inr err => ret (sc_members s, Some err)
      | inl out =>
          let s := List.fold_left (collect offset) (Items out) s in
          match LastEvaluatedKey out with
          | Some k =>
              if sc_remaining s >? 0
              then _zGeneralRange_loop fuel' key start stop offset forward
                     attribute (Some k) s
              else ret (sc_members s, None)
          | None => ret (sc_members s, None)
          end
      end
  end.

Definition _zGeneralRange (fuel : nat) (key start stop : string) (offset count : Z)
    (forward : bool) (attribute : attr) : M (gmap string float64 * option error) :=
  _zGeneralRange_loop fuel key start stop offset forward attribute None
    (mkScan ∅ 0 count).

Definition ZRANGEBYSCORE (fuel : nat) (key : string) (min max : float64)
    (offset count : Z) : M (gmap string float64 * option error) :=
  lo <- encode min ;;
  hi <- encode max ;;
  _zGeneralRange fuel key lo hi offset count true sk2.

Definition _zrange (fuel : nat) (key : string) (start stop : Z) (forward : bool)
    : M (gmap string float64 * option error) :=
  if (start <? 0) && (stop <? 0) then
    _zGeneralRange fuel key "" "" (int64 (int64 (- stop) - 1)) (int64 (- start))
      (negb forward) sk2
  else if (start >? 0) && (stop <? 0) then
    tail <- _zGeneralRange fuel key "" "" (int64 (int64 (- stop) - 1)) 1
              (negb forward) sk2 ;;
    let '(lastScore, err) := tail in
    match err with
    | Some _ => ret (∅, err)
    | None =>
        match floatValues lastScore with
        | [] => lift (Panic IndexOutOfRange)
        | v :: _ =>
            lex <- encode v ;;
            _zGeneralRange fuel key "" lex start 0 forward sk2
        end
    end
  else
    _zGeneralRange fuel key "" "" start (int64 (int64 (stop - start) + 1))
      forward sk2.

Definition ZRANGE (fuel : nat) (key : string) (start stop : Z) :=
  _zrange fuel key start stop true.

Definition ZREVRANGE (fuel : nat) (key : string) (start stop : Z) :=
  _zrange fuel key start stop false.

Definition _zrank (fuel : nat) (key member : string) (forward : bool)
    : M (Z * bool * option error) :=
  read <- ZSCORE key member ;;
  let '(score, ok, err) := read in
  if has_value err || negb ok then ret (0, ok, err)
  else
    lex <- encode score ;;
    counted <- (if forward then _zGeneralCount fuel key "" lex sk2
                else _zGeneralCount fuel key lex "" sk2) ;;
    let '(count, err) := counted in
    match err with
    | None => ret (int64 (count - 1), ok, err)
    | Some _ => ret (0, ok, err)
    end.

Definition ZRANK (fuel : nat) (key member : string) := _zrank fuel key member true.

Definition ZREVRANK (fuel : nat) (key member : string) := _zrank fuel key member false.

End SortedSets.

(** ** A reference score codec *)

Module RefCodec.

Fixpoint digits_from (fuel : nat) (n : Z) (acc : string) : string :=
  match fuel with
  | O => acc
  | S fuel' =>
      let acc' := String (ascii_of_nat (48 + Z.to_nat (n mod 10))) acc in
      if n <? 10 then acc' else digits_from fuel' (n / 10) acc'
  end.

(** The decimal digits of a natural number. *)
Definition digits (n : Z) : string := digits_from (S (Z.to_nat (Z.log2 n))) n "".

Fixpoint number_from (s : string) (acc : Z) : Z :=
  match s with
  | EmptyString => acc
  | String c s' => number_from s' (acc * 10 + (Z.of_nat (nat_of_ascii c) - 48))
  end.

Definition number (s : string) : Z := number_from s 0.

Fixpoint zeros (n : nat) : string :=
  match n with O => "" | S n' => String "0" (zeros n') end.

Definition pad (width : nat) (s : string) : string :=
  zeros (width - String.length s) ++ s.

Fixpoint strip (s : string) : string :=
  match s with
  | EmptyString => ""
  | String c s' =>
      let r := strip s' in
      if Ascii.eqb c "0" && String.eqb r "" then "" else String c r
  end.

(** Digit [d] becomes [9 - d]; other bytes are kept. *)
Fixpoint complement (s : string) : string :=
  match s with
  | EmptyString => ""
  | String c s' =>
      let n := nat_of_ascii c in
      String (if (48 <=? n)%nat && (n <=? 57)%nat then ascii_of_nat (105 - n) else c)
        (complement s')
  end.

(** The exact decimal expansion of [m * 2 ^ e]: the number of digits of the
    integer part on four digits, the integer part, the fraction digits. *)
Definition magnitude (m : positive) (e : Z) : string :=
  let ip := if 0 <=? e then Zpos m * 2 ^ e else Zpos m / 2 ^ (- e) in
  let fp := if 0 <=? e then 0 else (Zpos m mod 2 ^ (- e)) * 5 ^ (- e) in
  let ips := digits ip in
  pad 4 (digits (Z.of_nat (String.length ips))) ++ ips
  ++ strip (pad (Z.to_nat (- e)) (digits fp)).

(** Modelled from the spec: [floatToLex] is not among the sources.  Section
    4.1 asks for an order-preserving string: the sign re-mapped so that
    negatives sort before positives, larger magnitudes first among the
    negatives, arbitrary-precision decimal formatting, and sentinel
    encodings for the two infinities outside all finite encodings. *)
Definition floatToLex (f : big.Float) : string :=
  match f with
  | big.Inf true => "0"
  | big.Finite true m e => "1" ++ complement (magnitude m e) ++ "~"
  | big.Zero _ => "2"
  | big.Finite false m e => "3" ++ magnitude m e
  | big.Inf false => "4"
  end.

Definition parse (neg : bool) (s : string) : big.Float :=
  let len := Z.to_nat (number (substring 0 4 s)) in
  let frac := substring (4 + len) (String.length s - (4 + len)) s in
  let f := Z.of_nat (String.length frac) in
  let d := number (substring 4 len s) * 10 ^ f + number frac in
  if d =? 0 then big.Zero neg else big.Finite neg (Z.to_pos (d / 5 ^ f)) (- f).

(** Modelled from the spec: [lexToFloat] is not among the sources; section
    4.1 has it recover the encoded value. *)
Definition lexToFloat (s : string) : big.Float :=
  match s with
  | String "0" _ => big.Inf true
  | String "1" rest =>
      parse true (complement (substring 0 (String.length rest - 1) rest))
  | String "3" rest => parse false rest
  | String "4" _ => big.Inf false
  | _ => big.Zero false
  end.

End RefCodec.

(** ** The geospatial engine *)

Record Location : Type := mkLocation { Lat : float64; Lon : float64 }.

Definition EarthRadiusMeters : float64 :=
  f64_div (f64_of_Z 6372797560856) (f64_of_Z 1000000).

(** [Unit] is a [float64]: the length of the unit in meters. *)
Definition Meters : float64 := f64_of_Z 1.
Definition Kilometers : float64 := f64_of_Z 1000.
Definition Miles : float64 := f64_div (f64_of_Z 160934) (f64_of_Z 100).
Definition Feet : float64 := f64_div (f64_of_Z 3048) (f64_of_Z 10000).

Definition To (from to d : float64) : float64 := f64_mul (f64_div d to) from.

(** [strconv.ParseUint(s, 10, 64)] on the decimal text of a number attribute,
    its error dropped: 0 when the attribute is missing or negative, the
    largest value when it is out of range. *)
Definition ParseUint (n : option Z) : Z :=
  match n with
  | None => 0
  | Some z => if z <? 0 then 0 else if 2 ^ 64 <=? z then 2 ^ 64 - 1 else z
  end.

Definition NumberValue_N (item : list (attr * AttributeValue)) (a : attr) : option Z :=
  match List.find (fun p => attr_eqb (fst p) a) item with
  | Some (_, AV_N n) => Some n
  | _ => None
  end.

Section Geo.

(** The spherical geometry library is a collaborator: cell of a position,
    centre of a cell, angle between two positions in radians, cells that
    cover a cap, and the range of cell ids below a cell. *)
Variable s2_CellIDFromLatLng : Location -> Z.
Variable s2_LatLng : Z -> Location.
Variable s2_Distance : Location -> Location -> float64.
Variable s2_CellUnionBound : Location -> float64 -> list Z.
Variable s2_RangeMin s2_RangeMax : Z -> Z.

Definition toAV (l : Location) : AttributeValue := AV_N (s2_CellIDFromLatLng l).

Definition fromCellIDString (cellID : option Z) : Location :=
  s2_LatLng (ParseUint cellID).

Definition DistanceTo (l other : Location) (unit : float64) : float64 :=
  To Meters unit (f64_mul (s2_Distance l other) EarthRadiusMeters).

(** [members] lists the entries of the Go map in the order the [range] loop
    visits them.  Nothing assigns to [addedCount]. *)
Fixpoint GEOADD_loop (key : string) (members : list (string * Location))
    (addedCount : Z) : M (Z * option error) :=
  match members with
  | [] => ret (addedCount, None)
  | (member, location) :: rest =>
      err <- UpdateItem key member skGeoCell (toAV location) [] ;;
      match err with
      | Some _ => ret (addedCount, err)
      | None => GEOADD_loop key rest addedCount
      end
  end.

Definition GEOADD (key : string) (members : list (string * Location))
    : M (Z * option error) :=
  GEOADD_loop key members 0.

Fixpoint GEOPOS_loop (key : string) (members : list string)
    (locations : gmap string Location) : M (gmap string Location * option error) :=
  match members with
  | [] => ret (locations, None)
  | member :: rest =>
      resp <- GetItem key member [] ;;
      let '(item, err) := resp in
      match err with
      | Some _ => ret (locations, err)
      | None =>
          GEOPOS_loop key rest
            (if (0 <? length item)%nat
             then <[member := fromCellIDString (NumberValue_N item skGeoCell)]> locations
             else locations)
      end
  end.

Definition GEOPOS (key : string) (members : list string)
    : M (gmap string Location * option error) :=
  GEOPOS_loop key members ∅.

(** The variables of the search that the loop over a page updates. *)
Record search : Type := mkSearch {
  positions : gmap string Location;
  count : Z
}.

Definition accept (center : Location) (radius radiusUnit : float64)
    (s : search) (item : Item) : search :=
  let location := fromCellIDString (item_geo item) in
  let member := item_sk item in
  if f64_le (DistanceTo center location radiusUnit) radius
  then mkSearch (<[member := location]> (positions s)) (int64 (count s - 1))
  else s.

(** The pages of one covering cell: [for hasMoreResults && count > 0].
    [getIndex(skGeoCell)] is not among the sources; it names the index on
    the cell attribute. *)
Fixpoint GEORADIUS_cell (fuel : nat) (key : string) (cellID : Z)
    (center : Location) (radius radiusUnit : float64)
    (cursor : option nat) (s : search) : M (search * option error) :=
  if count s >? 0 then
    match fuel with
    | O => lift OutOfFuel
    | S fuel' =>
        resp <- Query (mkQuery key
                         (Between skGeoCell (AV_N (s2_RangeMin cellID))
                            (AV_N (s2_RangeMax cellID)))
                         (LSI skGeoCell) true (Some (count s)) cursor false) ;;
        match resp with
        | inr err => ret (s, Some err)
        | inl out =>
            let s' := List.fold_left (accept center radius radiusUnit) (Items out) s in
            match LastEvaluatedKey out with
            | Some k =>
                GEORADIUS_cell fuel' key cellID center radius radiusUnit (Some k) s'
            | None => ret (s', None)
            end
        end
    end
  else ret (s, None).

Fixpoint GEORADIUS_cells (fuel : nat) (key : string) (cells : list Z)
    (center : Location) (radius radiusUnit : float64) (s : search)
    : M (gmap string Location * option error) :=
  match cells with
  | [] => ret (positions s, None)
  | cellID :: rest =>
      r <- GEORADIUS_cell fuel key cellID center radius radiusUnit None s ;;
      let '(s', err) := r in
      match err with
      | Some _ => ret (positions s', err)
      | None => GEORADIUS_cells fuel key rest center radius radiusUnit s'
      end
  end.

Definition GEORADIUS (fuel : nat) (key : string) (center : Location)
    (radius radiusUnit : float64) (count : Z)
    : M (gmap string Location * option error) :=
  GEORADIUS_cells fuel key
    (s2_CellUnionBound center
       (f64_div (To radiusUnit Meters radius) EarthRadiusMeters))
    center radius radiusUnit (mkSearch ∅ count).

(** [locations[member]] is the zero [Location] when the key is missing. *)
Definition GEORADIUSBYMEMBER (fuel : nat) (key member : string)
    (radius radiusUnit : float64) (count : Z)
    : M (gmap string Location * option error) :=
  r <- GEOPOS key [member] ;;
  let '(locations, err) := r in
  match err with
  | None =>
      GEORADIUS fuel key
        (default (mkLocation f64_zero f64_zero) (locations !! member))
        radius radiusUnit count
  | Some _ => ret (∅, err)
  end.

(** What holds of the positions a search has accepted: each is within the
    radius and, when [tbl] holds the rows the store reads from, is the
    decoded cell of one of the rows of the collection. *)
Definition kept (key : string) (center : Location) (radius radiusUnit : float64)
    (tbl : option (list Item)) (ps : gmap string Location) : Prop :=
  forall member location,
    ps !! member = Some location ->
    f64_le (DistanceTo center location radiusUnit) radius = true
    /\ forall l, tbl = Some l ->
         exists it, In it l /\ item_pk it = key /\ item_sk it = member
                    /\ location = fromCellIDString (item_geo it).

End Geo.

(** ** Data for the examples *)

Definition empty_store (cap : positive) : Store := mkStore [] cap [] [].

Definition scored (key member : string) (score : Z) : Item :=
  mkItem key member
    (match big.NewFloat (f64_of_Z score) with
     | Ret b => Some (RefCodec.floatToLex b)
     | _ => None
     end) None.

(** The collection "z" with members m1 .. m5 of scores 1 .. 5, on a store
    whose pages hold up to [cap] entries. *)
Definition five (cap : positive) : Store :=
  mkStore [scored "z" "m1" 1; scored "z" "m2" 2; scored "z" "m3" 3;
           scored "z" "m4" 4; scored "z" "m5" 5] cap [] [].

Definition one_member : Store := mkStore [scored "z" "m1" 1] 100 [] [].

(** The requests a call added to the log. *)
Definition requests {A : Type} (m : M A) (st : Store) : list Request :=
  List.skipn (length (log st)) (log (fst (m st))).

(** A one-dimensional stand-in for the geometry library: positions on a line
    of whole latitudes, the cell of a position being its latitude, one
    covering cell that holds every position, and the difference of latitudes
    as the angle. *)
Module Line.

Definition whole (x : float64) : Z :=
  match x with
  | S754_finite s m e =>
      (if s then -1 else 1) * (if 0 <=? e then Zpos m * 2 ^ e else Zpos m / 2 ^ (- e))
  | _ => 0
  end.

Definition CellIDFromLatLng (l : Location) : Z := whole (Lat l).
Definition LatLng (cell : Z) : Location := mkLocation (f64_of_Z cell) f64_zero.
Definition Distance (a b : Location) : float64 :=
  SFabs (SFsub 53 1024 (Lat a) (Lat b)).
Definition CellUnionBound (center : Location) (angle : float64) : list Z := [0].
Definition RangeMin (cell : Z) : Z := 0.
Definition RangeMax (cell : Z) : Z := 2 ^ 64 - 1.

Definition at_latitude (key member : string) (lat : Z) : Item :=
  mkItem key member None (Some lat).

(** Two places: "near" one degree and "far" two degrees from the origin. *)
Definition places : Store :=
  mkStore [at_latitude "g" "near" 1; at_latitude "g" "far" 2] 100 [] [].

End Line.

(** Stores that differ by served requests only. *)
Definition after (st st' : Store) : Prop :=
  items st' = items st /\ pageCap st' = pageCap st /\ script st' = []
  /\ exists extra, log st' = (log st ++ extra)%list.

Definition half : float64 := f64_ldexp 1 (-1).

(** m2 of score 2, with another client that sets its score to 3, 4 and 5, each
    time between a read and the write that follows it. *)
Definition contended : Store :=
  mkStore [scored "z" "m2" 2] 100
    [Serve; Interfere "z" "m2" sk2 (AV_S "300013");
     Serve; Interfere "z" "m2" sk2 (AV_S "300014");
     Serve; Interfere "z" "m2" sk2 (AV_S "300015")] [].

Definition origin : Location := Line.LatLng 0.
Definition ten_thousand_km : float64 := f64_of_Z 10000000.

(** An empty store that serves one request and fails the next. *)
Definition failing_second_write : Store :=
  mkStore [] 100 [Serve; Fault "unavailable"] [].

Abbreviation zrange := (ZRANGE RefCodec.floatToLex RefCodec.lexToFloat).

Abbreviation georadius :=
  (GEORADIUS Line.LatLng Line.Distance Line.CellUnionBound Line.RangeMin Line.RangeMax).

#[global] Arguments entries : simpl never.

(** ** The rest of the sorted set engine *)

(** *** Deletions

    A conditional delete removes the item of a key when its conditions hold.
    The log of requests lists reads, updates and queries; a deletion shows in
    the table. *)

Definition remove_item (key member : string) (tbl : list Item) : list Item :=
  List.filter (fun it => negb (same_key key member it)) tbl.

Definition serve_delete (key member : string) (conditions : list Condition)
    (st : Store) : Store * option error :=
  if List.forallb (fun c => holds c (find_item key member (items st))) conditions
  then (with_items (remove_item key member (items st)) st, None)
  else (st, Some ConditionalCheckFailedException).

(** [DeleteItemRequest(...).Send]: the next event of the script is consumed as
    for the other requests. *)
Definition DeleteItem (key member : string) (conditions : list Condition)
    : M (option error) :=
  fun st =>
    let '(st', err) :=
      match script st with
      | [] => serve_delete key member conditions st
      | Serve :: evs =>
          serve_delete key member conditions
            (mkStore (items st) (pageCap st) evs (log st))
      | Fault msg :: evs =>
          (mkStore (items st) (pageCap st) evs (log st), Some (StoreError msg))
      | Interfere k m a v :: evs =>
          serve_delete key member conditions
            (mkStore (put_attr k m a v (items st)) (pageCap st) evs (log st))
      end in
    (st', Ret err).

Fixpoint ZREM_loop (key : string) (members : list string) (count : Z)
    : M (Z * option error) :=
  match members with
  | [] => ret (count, None)
  | member :: rest =>
      err <- DeleteItem key member [attribute_exists pk] ;;
      if conditionFailureError err then ZREM_loop key rest count
      else match err with
           | Some _ => ret (count, err)
           | None => ZREM_loop key rest (int64 (count + 1))
           end
  end.

Definition ZREM (key : string) (members : list string) : M (Z * option error) :=
  ZREM_loop key members 0.

(** The table after the items of [members] have been removed. *)
Definition without (key : string) (members : list string) (tbl : list Item)
    : list Item :=
  List.fold_left (fun tbl member => remove_item key member tbl) members tbl.

Section SortedSetsRest.

Variable floatToLex : big.Float -> string.
Variable lexToFloat : string -> big.Float.

(** The order in which [range] visits the keys of a map is not fixed by the
    language: it is a parameter. *)
Variable visit : gmap string float64 -> list string.

(** The table after the scores of [members] have been written in order. *)
Definition with_scores (key : string) (members : list (string * float64))
    (tbl : list Item) : list Item :=
  List.fold_left
    (fun tbl p => match big.NewFloat (snd p) with
                  | Ret b => put_attr key (fst p) sk2 (AV_S (floatToLex b)) tbl
                  | _ => tbl
                  end) members tbl.

Definition ZLEXCOUNT (fuel : nat) (key min max : string) : M (Z * option error) :=
  _zGeneralCount fuel key min max sk.

Definition ZRANGEBYLEX (fuel : nat) (key min max : string) (offset count : Z)
    : M (gmap string float64 * option error) :=
  _zGeneralRange lexToFloat fuel key min max offset count true sk.

Definition ZREVRANGEBYLEX (fuel : nat) (key max min : string) (offset count : Z)
    : M (gmap string float64 * option error) :=
  _zGeneralRange lexToFloat fuel key min max offset count false sk.

Definition ZREVRANGEBYSCORE (fuel : nat) (key : string) (max min : float64)
    (offset count : Z) : M (gmap string float64 * option error) :=
  lo <- encode floatToLex min ;;
  hi <- encode floatToLex max ;;
  _zGeneralRange lexToFloat fuel key lo hi offset count false sk2.

Definition _zpop (fuel : nat) (key : string) (count : Z) (forward : bool)
    : M (gmap string float64 * option error) :=
  r <- _zGeneralRange lexToFloat fuel key "" "" 0 count forward sk2 ;;
  let '(membersWithScores, err) := r in
  match err with
  | Some _ => ret (membersWithScores, err)
  | None =>
      d <- ZREM key (visit membersWithScores) ;;
      ret (membersWithScores, snd d)
  end.

Definition ZPOPMAX (fuel : nat) (key : string) (count : Z) := _zpop fuel key count false.

Definition ZPOPMIN (fuel : nat) (key : string) (count : Z) := _zpop fuel key count true.

(** What holds of the members a scan has collected from the rows [tbl]: each
    is the name of a row that the index lists and the key condition keeps,
    with the decoded score of that row. *)
Definition collected_from (tbl : list Item) (key : string) (c : KeyCondition)
    (ix : Index) (m : gmap string float64) : Prop :=
  forall name v,
    m !! name = Some v ->
    exists it, In it tbl /\ selects key c ix it = true /\ item_sk it = name
               /\ v = decode lexToFloat (snd (parseItem it)).

(** The variables of a scan with budget [count] after it has read [sc_index]
    entries: it has collected the entries past [offset], and no more than
    the budget. *)
Definition within_budget (offset count : Z) (s : scan) : Prop :=
  0 <= sc_index s
  /\ sc_remaining s = count - Z.max 0 (sc_index s - offset)
  /\ 0 <= sc_remaining s
  /\ Z.of_nat (size (sc_members s)) <= Z.max 0 (sc_index s - offset).

End SortedSetsRest.

(** The table holds one item per key. *)
Definition unique_keys (tbl : list Item) : Prop :=
  List.NoDup (List.map (fun it => (item_pk it, item_sk it)) tbl).

(** ** The rest of the geospatial engine *)

Section GeoRest.

Variable s2_LatLng : Z -> Location.
Variable s2_Distance : Location -> Location -> float64.
(** [geohash.Encode(lat, lon)], from the geohash library. *)
Variable geohash_Encode : float64 -> float64 -> string.

Definition Geohash (l : Location) : string := geohash_Encode (Lat l) (Lon l).

Definition zero_Location : Location := mkLocation f64_zero f64_zero.

Definition GEODIST (key member1 member2 : string) (unit : float64)
    : M (float64 * bool * option error) :=
  r <- GEOPOS s2_LatLng key [member1; member2] ;;
  let '(locations, err) := r in
  if has_value err || (size locations <? 2)%nat then ret (f64_zero, false, err)
  else ret (DistanceTo s2_Distance (default zero_Location (locations !! member1))
              (default zero_Location (locations !! member2)) unit, true, None).

Definition GEOHASH (key : string) (members : list string)
    : M (list string * option error) :=
  r <- GEOPOS s2_LatLng key members ;;
  let '(locations, err) := r in
  ret (List.map (fun member => match locations !! member with
                               | Some location => Geohash location
                               | None => ""
                               end) members, err).

End GeoRest.

(** ** More data for the examples *)

(** The big float of a whole number. *)
Definition big_of_Z (z : Z) : big.Float :=
  match big.NewFloat (f64_of_Z z) with
  | Ret b => b
  | _ => big.Zero false
  end.

(** One order in which the keys of a map can be visited. *)
Definition in_order (m : gmap string float64) : list string := (map_to_list m).*1.

(** m1 and m3 of score 1, m2 of score 2. *)
Definition tied : Store :=
  mkStore [scored "z" "m1" 1; scored "z" "m2" 2; scored "z" "m3" 1] 100 [] [].

(** * Properties *)

(** ** Arithmetic of the machine types *)
Lemma int64_small z : in_int64 z -> int64 z = z.
Proof.
  unfold in_int64, int64. intros H.
  rewrite Z.mod_small; lia.
Qed.

Lemma int64_add_l a b : int64 (int64 a + b) = int64 (a + b).
Proof.
  unfold int64. f_equal.
  replace (((a + 2 ^ 63) mod 2 ^ 64 - 2 ^ 63 + b + 2 ^ 63))
    with ((a + 2 ^ 63) mod 2 ^ 64 + b) by lia.
  rewrite Zplus_mod_idemp_l. f_equal. lia.
Qed.

Lemma shr_1_nonneg mrs : 0 <= shr_m mrs -> 0 <= shr_m (shr_1 mrs).
Proof.
  destruct mrs as [m r s]. simpl. destruct m as [|p|p]; simpl; try lia.
  - destruct p; simpl; lia.
Qed.

Lemma iter_shr_1_nonneg p mrs : 0 <= shr_m mrs -> 0 <= shr_m (SpecFloat.iter_pos shr_1 p mrs).
Proof.
  revert mrs. induction p; intros mrs H; simpl; auto using shr_1_nonneg.
Qed.

Lemma shr_fexp_nonneg m e l : 0 <= m -> 0 <= shr_m (fst (shr_fexp 53 1024 m e l)).
Proof.
  intros H. unfold shr_fexp, shr.
  assert (H0 : 0 <= shr_m (shr_record_of_loc m l)).
  { destruct l as [|[]]; simpl; lia. }
  destruct (fexp 53 1024 (Zdigits2 m + e) - e); simpl; auto using iter_shr_1_nonneg.
Qed.

Lemma binary_round_aux_not_nan s m e l :
  0 <= m -> is_nan (binary_round_aux 53 1024 s m e l) = false.
Proof.
  intros H. unfold binary_round_aux.
  pose proof (shr_fexp_nonneg m e l H) as H1.
  destruct (shr_fexp 53 1024 m e l) as [mrs' e'] eqn:E1. simpl in H1.
  assert (H2 : 0 <= round_nearest_even (shr_m mrs') (loc_of_shr_record mrs')).
  { unfold round_nearest_even. destruct (loc_of_shr_record mrs') as [|[]]; try lia.
    destruct (Z.even _); lia. }
  pose proof (shr_fexp_nonneg _ e' loc_Exact H2) as H3.
  destruct (shr_fexp 53 1024 _ e' loc_Exact) as [mrs'' e''] eqn:E2. simpl in H3.
  destruct (shr_m mrs'') as [|p|p]; simpl; try reflexivity.
  - destruct (e'' <=? 1024 - 53); reflexivity.
  - lia.
Qed.

Lemma Float64_not_nan b : is_nan (big.Float64 b) = false.
Proof.
  destruct b as [s|s|s m e]; simpl; try reflexivity.
  unfold binary_round.
  destruct (shl_align m e _) as [mz ez].
  apply binary_round_aux_not_nan. lia.
Qed.

Lemma NewFloat_not_nan x : is_nan x = false -> exists b, big.NewFloat x = Ret b.
Proof. destruct x; simpl; intros H; try discriminate; eauto. Qed.


(** ** The store when nothing fails or interferes *)

Lemma serve_query_logged q rq st : serve_query q (logged rq st) = serve_query q st.
Proof. reflexivity. Qed.

Lemma Query_quiet q st :
  script st = [] ->
  Query q st = (logged (QueryRequest q) st, Ret (serve_query q st)).
Proof.
  intros Hq. unfold Query, Send. rewrite Hq. simpl.
  change (mkStore (items st) (pageCap st) [] (log st ++ [QueryRequest q]))
    with (logged (QueryRequest q) st).
  rewrite serve_query_logged.
  destruct (serve_query q st); reflexivity.
Qed.

Lemma GetItem_quiet key member projection st :
  script st = [] ->
  GetItem key member projection st =
    (logged (GetItemRequest key member projection) st,
     Ret (project projection (find_item key member (items st)), None)).
Proof. intros Hq. unfold GetItem, Send. rewrite Hq. reflexivity. Qed.

Lemma after_logged rq st : after st (logged rq st).
Proof. repeat split; eauto. Qed.

Lemma after_trans st1 st2 st3 : after st1 st2 -> after st2 st3 -> after st1 st3.
Proof.
  intros (Hi & Hp & _ & e1 & Hl) (Hi' & Hp' & Hs' & e2 & Hl').
  repeat split; try congruence.
  exists (e1 ++ e2)%list. rewrite Hl', Hl, <- app_assoc. reflexivity.
Qed.

Section CountLoop.
Variables (key : string) (condition : KeyCondition) (indexName : Index).

Lemma _zGeneralCount_loop_quiet fuel :
  forall cursor acc st,
    script st = [] ->
    (length (entries key condition indexName true (items st)) - default 0%nat cursor
     < fuel)%nat ->
    exists st',
      _zGeneralCount_loop fuel key condition indexName cursor acc st =
        (st', Ret (int64 (acc + Z.of_nat (length (entries key condition indexName true (items st))
                                         - default 0%nat cursor)), None))
      /\ after st st'.
Proof.
  induction fuel as [|fuel IH]; intros cursor acc st Hq Hfuel; [lia|].
  simpl. unfold bind. rewrite Query_quiet by assumption.
  unfold serve_query, matching. simpl.
  set (all := entries key condition indexName true (items st)) in *.
  set (c := default 0%nat cursor) in *.
  set (rest := List.skipn c all).
  set (page := List.firstn (Pos.to_nat (pageCap st)) rest).
  assert (Hrest : length rest = (length all - c)%nat) by apply length_skipn.
  assert (Hpage : length page = Nat.min (Pos.to_nat (pageCap st)) (length rest))
    by apply length_firstn.
  destruct (length page <? length rest)%nat eqn:Hlt.
  - apply Nat.ltb_lt in Hlt.
    destruct (IH (Some (c + length page)%nat) (int64 (acc + Z.of_nat (length page)))
                (logged (QueryRequest (mkQuery key condition indexName true None cursor true)) st))
      as (st' & Hrun & Haft); [reflexivity | simpl; fold all; lia |].
    exists st'. split.
    + rewrite Hrun. simpl. fold all. rewrite int64_add_l. do 3 f_equal. apply (f_equal int64). lia.
    + eapply after_trans; [apply after_logged | exact Haft].
  - apply Nat.ltb_ge in Hlt.
    eexists. split; [|apply after_logged].
    unfold ret. do 4 f_equal. lia.
Qed.
End CountLoop.

Lemma int64_range z : in_int64 (int64 z).
Proof.
  unfold in_int64, int64.
  pose proof (Z.mod_pos_bound (z + 2 ^ 63) (2 ^ 64) ltac:(lia)). lia.
Qed.

Lemma int64_sub_l a b : int64 (int64 a - b) = int64 (a - b).
Proof. unfold Z.sub. apply int64_add_l. Qed.

(** ** Sorting keeps the rows *)

Lemma length_insert_sorted a x l : length (insert_sorted a x l) = S (length l).
Proof.
  induction l as [|y l IH]; simpl; [reflexivity|].
  destruct (entry_leb a x y); simpl; congruence.
Qed.

Lemma length_sort_by a l : length (sort_by a l) = length l.
Proof.
  induction l as [|x l IH]; simpl; [reflexivity|].
  rewrite length_insert_sorted. congruence.
Qed.

Lemma In_insert_sorted a x y l : In y (insert_sorted a x l) <-> y = x \/ In y l.
Proof.
  induction l as [|z l IH]; simpl; [intuition congruence|].
  destruct (entry_leb a x z); simpl; [intuition congruence|].
  rewrite IH. intuition congruence.
Qed.

Lemma In_sort_by a y l : In y (sort_by a l) <-> In y l.
Proof.
  induction l as [|x l IH]; simpl; [tauto|].
  rewrite In_insert_sorted, IH. intuition congruence.
Qed.

Lemma length_entries key c ix forward tbl :
  length (entries key c ix forward tbl) = length (List.filter (selects key c ix) tbl).
Proof.
  unfold entries. destruct forward; [|rewrite length_rev]; apply length_sort_by.
Qed.

Lemma In_entries key c ix forward tbl it :
  In it (entries key c ix forward tbl) <-> In it tbl /\ selects key c ix it = true.
Proof.
  unfold entries. destruct forward; [|rewrite <- in_rev];
    rewrite In_sort_by; apply filter_In.
Qed.

Lemma length_entries_le key c ix forward tbl :
  (length (entries key c ix forward tbl) <= length tbl)%nat.
Proof. rewrite length_entries. apply filter_length_le. Qed.

Lemma firstn_min_all {A} (l : list A) cap n :
  (length l <= cap)%nat -> List.firstn (Nat.min cap n) l = List.firstn n l.
Proof.
  intros H. destruct (Nat.le_gt_cases n cap) as [Hn|Hn].
  - rewrite Nat.min_r by assumption. reflexivity.
  - rewrite Nat.min_l by lia. rewrite !firstn_all2 by lia. reflexivity.
Qed.

Section RangeLoop.
Variable floatToLex : big.Float -> string.
Variable lexToFloat : string -> big.Float.

Lemma scores_of_cons item l m :
  scores_of lexToFloat (item :: l) m =
    scores_of lexToFloat l
      (<[fst (parseItem item) := decode lexToFloat (snd (parseItem item))]> m).
Proof. reflexivity. Qed.

Lemma collect_fold offset : forall page s,
  0 <= sc_index s ->
  sc_index s + Z.of_nat (length page) < 2 ^ 63 ->
  in_int64 (sc_remaining s) ->
  List.fold_left (collect lexToFloat offset) page s =
    mkScan
      (scores_of lexToFloat (List.skipn (Z.to_nat (offset - sc_index s)) page)
         (sc_members s))
      (sc_index s + Z.of_nat (length page))
      (int64 (sc_remaining s
              - Z.of_nat (length (List.skipn (Z.to_nat (offset - sc_index s)) page)))).
Proof.
  induction page as [|item page IH]; intros [m i r] Hi Hlen Hr; simpl in *.
  - rewrite skipn_nil. simpl. rewrite Z.sub_0_r, Z.add_0_r.
    rewrite int64_small by assumption. reflexivity.
  - unfold collect at 2. simpl.
    rewrite (int64_small (i + 1)) by (unfold in_int64; lia).
    destruct (i >=? offset) eqn:Hge.
    + apply Z.geb_le in Hge.
      rewrite IH; simpl; [| lia | lia | apply int64_range].
      replace (Z.to_nat (offset - (i + 1))) with 0%nat by lia.
      replace (Z.to_nat (offset - i)) with 0%nat by lia.
      simpl. rewrite !drop_0, int64_sub_l. f_equal; [lia|]. apply (f_equal int64). lia.
    + rewrite Z.geb_leb in Hge. apply Z.leb_gt in Hge.
      rewrite IH; simpl; [| lia | lia | assumption].
      replace (Z.to_nat (offset - i)) with (S (Z.to_nat (offset - (i + 1)))) by lia.
      simpl. f_equal. lia.
Qed.

Lemma _zGeneralRange_single_page fuel key start stop offset count forward attribute st :
  script st = [] ->
  0 <= offset -> in_int64 count -> (0 < count -> count + offset < 2 ^ 63) ->
  (length (items st) <= Pos.to_nat (pageCap st))%nat ->
  Z.of_nat (length (items st)) < 2 ^ 63 ->
  _zGeneralRange lexToFloat (S fuel) key start stop offset count forward attribute st =
    (logged (QueryRequest
               (mkQuery key (range_condition attribute start stop) (index_for attribute)
                  forward (if count >? 0 then Some (count + offset) else None) None false)) st,
     Ret (scores_of lexToFloat
            (window offset count
               (entries key (range_condition attribute start stop) (index_for attribute)
                  forward (items st))) ∅, None)).
Proof.
  intros Hq Hoff Hcnt Hsum Hcap Hsize.
  unfold _zGeneralRange. simpl. unfold bind.
  rewrite Query_quiet by assumption.
  unfold serve_query, matching, queryLimit, window. simpl.
  set (all := entries key (range_condition attribute start stop) (index_for attribute)
                forward (items st)).
  assert (Hall : (length all <= length (items st))%nat) by apply length_entries_le.
  rewrite !drop_0.
  destruct (count >? 0) eqn:Hpos.
  - apply Z.gtb_lt in Hpos. specialize (Hsum Hpos).
    rewrite Z.sub_0_r.
    rewrite (int64_small (count + offset)) by (unfold in_int64; lia).
    rewrite (int64_small (count + offset)) by (unfold in_int64; lia).
    destruct (count + offset <? 1) eqn:Hl; [apply Z.ltb_lt in Hl; lia|].
    rewrite firstn_min_all by lia.
    set (page := List.firstn (Z.to_nat (count + offset)) all).
    assert (Hpage : length page = Nat.min (Z.to_nat (count + offset)) (length all))
      by apply length_firstn.
    rewrite collect_fold; simpl; [| lia | lia | assumption].
    rewrite Z.sub_0_r.
    assert (Hres : List.skipn (Z.to_nat offset) page
                   = List.firstn (Z.to_nat count) (List.skipn (Z.to_nat offset) all)).
    { unfold page. rewrite take_drop_commute. do 2 f_equal. lia. }
    destruct ((length page <? length all)%nat
              || (Z.of_nat (length page) =? count + offset)) eqn:Hlek.
    + assert (Hfull : Z.of_nat (length page) = count + offset).
      { apply orb_true_iff in Hlek. destruct Hlek as [H|H].
        - apply Nat.ltb_lt in H. lia.
        - apply Z.eqb_eq in H. exact H. }
      rewrite length_skipn.
      replace (count - Z.of_nat (length page - Z.to_nat offset)) with 0 by lia.
      change (int64 0 >? 0) with false. simpl.
      unfold ret. rewrite Hres. reflexivity.
    + unfold ret. rewrite Hres. reflexivity.
  - simpl. rewrite firstn_all2 by lia.
    rewrite Nat.ltb_irrefl.
    rewrite collect_fold; simpl; [| lia | lia | assumption].
    rewrite Z.sub_0_r. reflexivity.
Qed.
End RangeLoop.

Lemma scores_of_keeps lexToFloat l : forall m k,
  is_Some (m !! k) -> is_Some (scores_of lexToFloat l m !! k).
Proof.
  induction l as [|item l IH]; intros m k Hk; simpl; [exact Hk|].
  apply IH. apply lookup_insert_is_Some'. right. exact Hk.
Qed.

Lemma scores_of_covers lexToFloat l : forall m it,
  In it l -> is_Some (scores_of lexToFloat l m !! item_sk it).
Proof.
  induction l as [|item l IH]; intros m it Hin; simpl in *; [tauto|].
  destruct Hin as [->|Hin]; [|apply IH; exact Hin].
  apply scores_of_keeps. apply lookup_insert_is_Some'. left. reflexivity.
Qed.


Section SortedSetFacts.
Variable floatToLex : big.Float -> string.
Variable lexToFloat : string -> big.Float.

Lemma encode_decode s :
  exists b, big.NewFloat (decode lexToFloat s) = Ret b
            /\ forall st, encode floatToLex (decode lexToFloat s) st = (st, Ret (floatToLex b)).
Proof.
  destruct (NewFloat_not_nan (decode lexToFloat s)) as [b Hb];
    [apply Float64_not_nan|].
  exists b. split; [exact Hb|]. intros st. unfold encode, bind, lift. rewrite Hb. reflexivity.
Qed.

Lemma ZSCORE_quiet key member st :
  script st = [] ->
  ZSCORE lexToFloat key member st =
    (logged (GetItemRequest key member [sk2]) st,
     Ret (match find_item key member (items st) ≫= item_sk2 with
          | Some s => (decode lexToFloat s, true, None)
          | None => (f64_zero, false, None)
          end)).
Proof.
  intros Hq. unfold ZSCORE, bind. rewrite GetItem_quiet by assumption.
  destruct (find_item key member (items st)) as [it|]; simpl; [|reflexivity].
  destruct (item_sk2 it) as [s|]; reflexivity.
Qed.

(** C3, as the code has it: the rank is one less than the number of members
    whose encoded score is at most (forward) or at least (reverse) the
    member's own, the member itself counted; an absent member gives
    [ok = false] and no error. *)
Theorem zrank_counts_members_up_to_its_score fuel key member forward st :
  script st = [] ->
  (length (items st) < fuel)%nat ->
  match find_item key member (items st) ≫= item_sk2 with
  | Some s =>
      exists b st',
        big.NewFloat (decode lexToFloat s) = Ret b
        /\ _zrank floatToLex lexToFloat fuel key member forward st =
             (st', Ret (int64 (Z.of_nat (length
                          (List.filter
                             (selects key
                                (if forward
                                 then range_condition sk2 "" (floatToLex b)
                                 else range_condition sk2 (floatToLex b) "")
                                (LSI sk2)) (items st))) - 1), true, None))
  | None =>
      exists st',
        _zrank floatToLex lexToFloat fuel key member forward st = (st', Ret (0, false, None))
  end.
Proof.
  intros Hq Hfuel.
  pose proof (ZSCORE_quiet key member st Hq) as Hread.
  destruct (find_item key member (items st) ≫= item_sk2) as [s|];
    unfold _zrank, bind at 1; rewrite Hread; simpl;
    [|eexists; reflexivity].
  destruct (encode_decode s) as (b & Hb & Henc).
  exists b. unfold bind at 1. rewrite Henc. unfold bind.
  set (st1 := logged (GetItemRequest key member [sk2]) st).
  destruct forward.
  - destruct (_zGeneralCount_loop_quiet key (range_condition sk2 "" (floatToLex b))
                (index_for sk2) fuel None 0 st1) as (st' & Hrun & _);
      [reflexivity | simpl; pose proof (length_entries_le key (range_condition sk2 "" (floatToLex b)) (index_for sk2) true (items st)); lia |].
    exists st'. split; [exact Hb|].
    unfold _zGeneralCount. rewrite Hrun. simpl.
    rewrite length_entries, Nat.sub_0_r, int64_sub_l. reflexivity.
  - destruct (_zGeneralCount_loop_quiet key (range_condition sk2 (floatToLex b) "")
                (index_for sk2) fuel None 0 st1) as (st' & Hrun & _);
      [reflexivity | simpl; pose proof (length_entries_le key (range_condition sk2 (floatToLex b) "") (index_for sk2) true (items st)); lia |].
    exists st'. split; [exact Hb|].
    unfold _zGeneralCount. rewrite Hrun. simpl.
    rewrite length_entries, Nat.sub_0_r, int64_sub_l. reflexivity.
Qed.

(** C9, as the code has it: with [start = 0] and [stop < 0] the call is one
    unbounded scan, and on a store that serves the collection in a single
    page it returns every member, whatever [stop] is. *)
Theorem ZRANGE_from_zero_returns_the_whole_page fuel key stop st :
  - 2 ^ 63 <= stop < 0 ->
  script st = [] ->
  (length (items st) <= Pos.to_nat (pageCap st))%nat ->
  Z.of_nat (length (items st)) < 2 ^ 63 ->
  exists members,
    ZRANGE floatToLex lexToFloat (S fuel) key 0 stop st =
      (logged (QueryRequest (mkQuery key KeyOnly (LSI sk2) true None None false)) st,
       Ret (members, None))
    /\ members = scores_of lexToFloat (entries key KeyOnly (LSI sk2) true (items st)) ∅
    /\ forall it, In it (items st) -> item_pk it = key -> item_sk2 it <> None ->
                  is_Some (members !! item_sk it).
Proof.
  intros Hstop Hq Hcap Hsize. eexists. split; [|split; [reflexivity|]].
  - unfold ZRANGE, _zrange. simpl.
    rewrite Z.sub_0_r, (int64_small stop) by (unfold in_int64; lia).
    rewrite _zGeneralRange_single_page;
      [| assumption | lia | apply int64_range | | assumption | assumption].
    + rewrite (int64_small (stop + 1)) by (unfold in_int64; lia).
      unfold window.
      destruct (stop + 1 >? 0) eqn:Hpos; [apply Z.gtb_lt in Hpos; lia|].
      reflexivity.
    + rewrite (int64_small (stop + 1)) by (unfold in_int64; lia). lia.
  - intros it Hin Hpk Hsk2. apply scores_of_covers. apply In_entries.
    split; [exact Hin|]. unfold selects. simpl.
    rewrite Hpk, String.eqb_refl. destruct (item_sk2 it); [reflexivity|congruence].
Qed.

End SortedSetFacts.

(** ** Writes *)

Lemma same_key_refl key member a b :
  same_key key member (mkItem key member a b) = true.
Proof. unfold same_key. simpl. rewrite !String.eqb_refl. reflexivity. Qed.

Lemma same_key_set_attr key member a v it :
  same_key key member (set_attr a v it) = same_key key member it.
Proof. destruct a, v; reflexivity. Qed.

Lemma find_put_attr_absent key member s tbl :
  find_item key member tbl = None ->
  find_item key member (put_attr key member sk2 (AV_S s) tbl)
  = Some (mkItem key member (Some s) None).
Proof.
  unfold find_item. induction tbl as [|it tbl IH]; simpl; intros H.
  - rewrite same_key_refl. reflexivity.
  - destruct (same_key key member it) eqn:E; [discriminate|].
    simpl. rewrite E. apply IH. exact H.
Qed.

Lemma find_put_attr_present key member s tbl it :
  find_item key member tbl = Some it ->
  find_item key member (put_attr key member sk2 (AV_S s) tbl)
  = Some (set_attr sk2 (AV_S s) it).
Proof.
  unfold find_item. induction tbl as [|x tbl IH]; cbn [put_attr List.find]; intros H;
    [discriminate|].
  destruct (same_key key member x) eqn:E; cbn [List.find].
  - injection H as ->. rewrite same_key_set_attr, E. reflexivity.
  - rewrite E. apply IH. exact H.
Qed.


Lemma find_put_attr_sk2 key member s tbl :
  find_item key member (put_attr key member sk2 (AV_S s) tbl) ≫= item_sk2 = Some s.
Proof.
  destruct (find_item key member tbl) as [it|] eqn:E.
  - rewrite (find_put_attr_present _ _ _ _ _ E). reflexivity.
  - rewrite (find_put_attr_absent _ _ _ _ E). reflexivity.
Qed.

Lemma UpdateItem_quiet key member a v conditions st :
  script st = [] ->
  UpdateItem key member a v conditions st =
    if List.forallb (fun c => holds c (find_item key member (items st))) conditions
    then (with_items (put_attr key member a v (items st))
            (logged (UpdateItemRequest key member a v conditions) st), Ret None)
    else (logged (UpdateItemRequest key member a v conditions) st,
          Ret (Some ConditionalCheckFailedException)).
Proof.
  intros Hq. unfold UpdateItem, Send. rewrite Hq. simpl.
  destruct (List.forallb _ conditions); reflexivity.
Qed.



Lemma Send_log rq st : log (fst (Send rq st)) = (log st ++ [rq])%list.
Proof.
  unfold Send.
  destruct (script st) as [|[|msg|k m a v] evs]; try reflexivity;
    (destruct rq as [k' m' p|k' m' a' v' cs|q]; simpl;
     [reflexivity
     | match goal with |- context [List.forallb ?f ?l] => destruct (List.forallb f l) end; reflexivity
     | match goal with |- context [serve_query ?q ?s] => destruct (serve_query q s) end; reflexivity]).
Qed.

Section IncrementFacts.
Variable floatToLex : big.Float -> string.
Variable lexToFloat : string -> big.Float.
Variables (key member : string) (delta : float64).





Lemma encode_ok x b st :
  big.NewFloat x = Ret b -> encode floatToLex x st = (st, Ret (floatToLex b)).
Proof. intros H. unfold encode, bind, lift. rewrite H. reflexivity. Qed.





End IncrementFacts.

Section NaN.
Variable floatToLex : big.Float -> string.
Variable lexToFloat : string -> big.Float.

Lemma encode_nan st :
  encode floatToLex S754_nan st = (st, Panic (ErrNaN "NewFloat(NaN)")).
Proof. reflexivity. Qed.


Lemma UpdateItem_returns k m a v cs st :
  exists st' err, UpdateItem k m a v cs st = (st', Ret err).
Proof.
  unfold UpdateItem. destruct (Send _ st) as [st' []]; eauto.
Qed.

Lemma ZADD_loop_cons key m x members flags n e st :
  ZADD_loop floatToLex key ((m, x) :: members) flags n e st
  = match (lex <- encode floatToLex x ;;
           UpdateItem key m sk2 (AV_S lex)
             ((if has flags IfNotExists then [attribute_not_exists pk] else [])
              ++ (if has flags IfAlreadyExists then [attribute_exists pk] else []))%list) st
    with
    | (st', Ret err) =>
        if conditionFailureError err then ZADD_loop floatToLex key members flags n err st'
        else match err with
             | Some _ => (st', Ret (n, err))
             | None => ZADD_loop floatToLex key members flags (int64 (n + 1)) err st'
             end
    | (st', Panic p) => (st', Panic p)
    | (st', OutOfFuel) => (st', OutOfFuel)
    end.
Proof.
  cbn [ZADD_loop]. unfold bind.
  destruct (encode floatToLex x st) as [st1 [lex|p|]]; try reflexivity.
  destruct (UpdateItem key m sk2 (AV_S lex) _ st1) as [st2 [err|p|]]; try reflexivity.
  destruct (conditionFailureError err); [reflexivity|]. destruct err; reflexivity.
Qed.




End NaN.

(** ** The geospatial engine *)

Lemma In_take {A} (x : A) n l : In x (List.firstn n l) -> In x l.
Proof. intros H. rewrite <- (firstn_skipn n l). apply in_or_app. left. exact H. Qed.

Lemma In_drop {A} (x : A) n l : In x (List.skipn n l) -> In x l.
Proof. intros H. rewrite <- (firstn_skipn n l). apply in_or_app. right. exact H. Qed.

Lemma Query_items q st st' out :
  script st = [] ->
  Query q st = (st', Ret (inl out)) ->
  st' = logged (QueryRequest q) st
  /\ forall it, In it (Items out) -> In it (items st) /\ item_pk it = q_key q.
Proof.
  intros Hq. rewrite Query_quiet by assumption. intros H.
  injection H as <- Hout. split; [reflexivity|].
  intros it Hin.
  assert (Hall : In it (matching q (items st))).
  { unfold serve_query in Hout.
    destruct (q_limit q) as [l|].
    - destruct (l <? 1); [discriminate|]. injection Hout as <-. simpl in Hin.
      destruct (q_select_count q); [destruct Hin|].
      eapply In_drop, In_take; exact Hin.
    - injection Hout as <-. simpl in Hin.
      destruct (q_select_count q); [destruct Hin|].
      eapply In_drop, In_take; exact Hin. }
  unfold matching in Hall. apply In_entries in Hall. destruct Hall as [Hin' Hsel].
  split; [exact Hin'|].
  unfold selects in Hsel. apply andb_true_iff in Hsel. destruct Hsel as [Hsel _].
  apply andb_true_iff in Hsel. destruct Hsel as [Hpk _].
  apply String.eqb_eq in Hpk. exact Hpk.
Qed.

Section GeoFacts.
Variable s2_CellIDFromLatLng : Location -> Z.
Variable s2_LatLng : Z -> Location.
Variable s2_Distance : Location -> Location -> float64.
Variable s2_CellUnionBound : Location -> float64 -> list Z.
Variable s2_RangeMin s2_RangeMax : Z -> Z.

(** C8, as the code has it: the count is 0 on every path. *)
Theorem GEOADD_count_is_always_zero key members st :
  exists st' err,
    GEOADD s2_CellIDFromLatLng key members st = (st', Ret (0, err)).
Proof.
  unfold GEOADD. revert st.
  induction members as [|[member location] members IH]; intros st.
  - exists st, None. reflexivity.
  - cbn [GEOADD_loop]. unfold bind.
    destruct (UpdateItem_returns key member skGeoCell
                (toAV s2_CellIDFromLatLng location) [] st) as (st1 & [e|] & ->).
    + exists st1, (Some e). reflexivity.
    + apply IH.
Qed.

Section Search.
Variables (key : string) (center : Location) (radius radiusUnit : float64).

Lemma kept_accept tbl page : forall s,
  (forall l, tbl = Some l ->
     forall it, In it page -> In it l /\ item_pk it = key) ->
  kept s2_LatLng s2_Distance key center radius radiusUnit tbl (positions s) ->
  kept s2_LatLng s2_Distance key center radius radiusUnit tbl (positions (List.fold_left
                         (accept s2_LatLng s2_Distance center radius radiusUnit) page s)).
Proof.
  induction page as [|item page IH]; intros s Hpage Hs; simpl; [exact Hs|].
  apply IH.
  - intros l Hl it Hin. apply (Hpage l Hl). right. exact Hin.
  - unfold accept.
    destruct (f64_le (DistanceTo s2_Distance center
                        (fromCellIDString s2_LatLng (item_geo item)) radiusUnit) radius)
      eqn:Hle; [|exact Hs].
    intros member location Hlook. simpl in Hlook.
    apply lookup_insert_Some in Hlook. destruct Hlook as [[<- <-]|[_ Hlook]].
    + split; [exact Hle|]. intros l Hl.
      destruct (Hpage l Hl item (or_introl eq_refl)) as [Hin Hpk].
      exists item. auto.
    + apply Hs. exact Hlook.
Qed.

Lemma kept_cell tbl cellID fuel : forall cursor s st st' s' err,
  (forall l, tbl = Some l -> script st = [] /\ items st = l) ->
  GEORADIUS_cell s2_LatLng s2_Distance s2_RangeMin s2_RangeMax fuel key cellID
    center radius radiusUnit cursor s st = (st', Ret (s', err)) ->
  kept s2_LatLng s2_Distance key center radius radiusUnit tbl (positions s) ->
  kept s2_LatLng s2_Distance key center radius radiusUnit tbl (positions s')
  /\ (forall l, tbl = Some l -> script st' = [] /\ items st' = l).
Proof.
  induction fuel as [|fuel IH]; intros cursor s st st' s' err Htbl Hrun Hs;
    cbn [GEORADIUS_cell] in Hrun.
  - destruct (count s >? 0); [discriminate|]. injection Hrun as <- <- <-. auto.
  - destruct (count s >? 0); [|injection Hrun as <- <- <-; auto].
    unfold bind in Hrun.
    set (q := mkQuery key _ _ _ _ _ _) in Hrun.
    destruct (Query q st) as [st1 [[out|e]|p|]] eqn:Hquery; try discriminate.
    + assert (Hquiet : forall l, tbl = Some l ->
                (forall it, In it (Items out) -> In it l /\ item_pk it = key)
                /\ script st1 = [] /\ items st1 = l).
      { intros l Hl. destruct (Htbl l Hl) as [Hq Hit].
        destruct (Query_items q st st1 out Hq Hquery) as [-> Hin].
        subst l. split; [exact Hin|]. split; reflexivity. }
      assert (Hs1 : kept s2_LatLng s2_Distance key center radius radiusUnit tbl (positions
                 (List.fold_left (accept s2_LatLng s2_Distance center radius radiusUnit)
                    (Items out) s))).
      { apply kept_accept; [|exact Hs]. intros l Hl. apply (Hquiet l Hl). }
      destruct (LastEvaluatedKey out) as [k|].
      * eapply IH; [|exact Hrun|exact Hs1]. intros l Hl. apply (Hquiet l Hl).
      * injection Hrun as <- <- <-. split; [exact Hs1|].
        intros l Hl. apply (Hquiet l Hl).
    + injection Hrun as <- <- <-. split; [exact Hs|].
      (* a quiet store does not fail a query with a positive limit, but
         the failed store is still quiet *)
      intros l Hl. destruct (Htbl l Hl) as [Hq Hit].
      rewrite Query_quiet in Hquery by assumption.
      injection Hquery as <- _. split; [reflexivity|exact Hit].
Qed.

Lemma kept_cells tbl fuel cells : forall s st st' ps err,
  (forall l, tbl = Some l -> script st = [] /\ items st = l) ->
  GEORADIUS_cells s2_LatLng s2_Distance s2_RangeMin s2_RangeMax fuel key cells
    center radius radiusUnit s st = (st', Ret (ps, err)) ->
  kept s2_LatLng s2_Distance key center radius radiusUnit tbl (positions s) ->
  kept s2_LatLng s2_Distance key center radius radiusUnit tbl ps.
Proof.
  induction cells as [|cellID cells IH]; intros s st st' ps err Htbl Hrun Hs;
    cbn [GEORADIUS_cells] in Hrun.
  - injection Hrun as <- <- <-. exact Hs.
  - unfold bind in Hrun.
    destruct (GEORADIUS_cell _ _ _ _ fuel key cellID center radius radiusUnit None s st)
      as [st1 [[s1 e]|p|]] eqn:Hcell; try discriminate.
    destruct (kept_cell tbl cellID fuel None s st st1 s1 e Htbl Hcell Hs) as [Hs1 Htbl1].
    destruct e as [e|].
    + injection Hrun as <- <- <-. exact Hs1.
    + eapply IH; [exact Htbl1|exact Hrun|exact Hs1].
Qed.

(** C7: a member is in the result only with a position whose distance to
    the centre, computed again from the stored cell, is within the radius;
    a stored member whose distance exceeds the radius is not in it. *)
Theorem GEORADIUS_keeps_only_members_within_radius fuel count st st' ps err :
  GEORADIUS s2_LatLng s2_Distance s2_CellUnionBound s2_RangeMin s2_RangeMax
    fuel key center radius radiusUnit count st = (st', Ret (ps, err)) ->
  (forall member location,
     ps !! member = Some location ->
     f64_le (DistanceTo s2_Distance center location radiusUnit) radius = true)
  /\ (script st = [] ->
      forall member,
        (forall it, In it (items st) -> item_pk it = key -> item_sk it = member ->
           f64_le (DistanceTo s2_Distance center
                     (fromCellIDString s2_LatLng (item_geo it)) radiusUnit) radius
           = false) ->
        ps !! member = None).
Proof.
  unfold GEORADIUS. intros Hrun. split.
  - intros member location Hlook.
    refine (proj1 (kept_cells None fuel _ _ st st' ps err _ Hrun _ member location Hlook)).
    + intros l Hl. discriminate.
    + intros m l Hm. simpl in Hm. rewrite lookup_empty in Hm. discriminate.
  - intros Hq member Hfar.
    destruct (ps !! member) as [location|] eqn:Hlook; [|reflexivity].
    assert (Hkept : kept s2_LatLng s2_Distance key center radius radiusUnit
                      (Some (items st)) ps).
    { refine (kept_cells (Some (items st)) fuel _ _ st st' ps err _ Hrun _).
      - intros l Hl. injection Hl as <-. split; [exact Hq|reflexivity].
      - intros m l Hm. simpl in Hm. rewrite lookup_empty in Hm. discriminate. }
    destruct (Hkept member location Hlook) as [Hle Hfrom].
    destruct (Hfrom _ eq_refl) as (it & Hin & Hpk & Hsk & ->).
    rewrite (Hfar it Hin Hpk Hsk) in Hle. discriminate.
Qed.

Lemma GEORADIUS_cell_returns cellID fuel : forall cursor s st,
  script st = [] ->
  (length (entries key (Between skGeoCell (AV_N (s2_RangeMin cellID))
                          (AV_N (s2_RangeMax cellID)))
             (LSI skGeoCell) true (items st)) - default 0%nat cursor < fuel)%nat ->
  exists st' s' err,
    GEORADIUS_cell s2_LatLng s2_Distance s2_RangeMin s2_RangeMax fuel key cellID
      center radius radiusUnit cursor s st = (st', Ret (s', err))
    /\ after st st'.
Proof.
  induction fuel as [|fuel IH]; intros cursor s st Hq Hfuel; [lia|].
  cbn [GEORADIUS_cell].
  destruct (count s >? 0) eqn:Hpos;
    [|exists st, s, None; split; [reflexivity|]; repeat split; auto; exists []; rewrite app_nil_r;
      reflexivity].
  apply Z.gtb_lt in Hpos.
  unfold bind. rewrite Query_quiet by assumption.
  unfold serve_query, matching. cbn [q_limit q_exclusive_start q_select_count q_key
                                       q_condition q_index q_forward].
  destruct (count s <? 1) eqn:Hl; [apply Z.ltb_lt in Hl; lia|].
  set (all := entries key _ _ true (items st)) in *.
  set (c := default 0%nat cursor) in *.
  set (rest := List.skipn c all).
  set (page := List.firstn (Nat.min (Pos.to_nat (pageCap st)) (Z.to_nat (count s))) rest).
  assert (Hrest : length rest = (length all - c)%nat) by apply length_skipn.
  assert (Hpage : length page
                  = Nat.min (Nat.min (Pos.to_nat (pageCap st)) (Z.to_nat (count s)))
                      (length rest)) by apply length_firstn.
  cbn [Items LastEvaluatedKey].
  set (q := mkQuery key _ _ _ _ _ _).
  destruct ((length page <? length rest)%nat || (Z.of_nat (length page) =? count s))
    eqn:Hlek.
  - assert (Hstep : (1 <= length page)%nat).
    { apply orb_true_iff in Hlek. destruct Hlek as [H|H].
      - apply Nat.ltb_lt in H. lia.
      - apply Z.eqb_eq in H. lia. }
    destruct (IH (Some (c + length page)%nat)
                (List.fold_left (accept s2_LatLng s2_Distance center radius radiusUnit)
                   page s)
                (logged (QueryRequest q) st))
      as (st' & s' & err & Hrun & Haft); [reflexivity | simpl; fold all; lia |].
    exists st', s', err. split; [exact Hrun|].
    eapply after_trans; [apply after_logged|exact Haft].
  - eexists _, _, _. split; [reflexivity|apply after_logged].
Qed.

(** On a store that neither fails nor interferes, the search returns. *)
Lemma GEORADIUS_returns fuel count st :
  script st = [] ->
  (length (items st) < fuel)%nat ->
  exists st' ps err,
    GEORADIUS s2_LatLng s2_Distance s2_CellUnionBound s2_RangeMin s2_RangeMax
      fuel key center radius radiusUnit count st = (st', Ret (ps, err)).
Proof.
  unfold GEORADIUS. generalize (mkSearch ∅ count).
  generalize (s2_CellUnionBound center
                (f64_div (To radiusUnit Meters radius) EarthRadiusMeters)).
  intros cells. revert st.
  induction cells as [|cellID cells IH]; intros st s Hq Hfuel; cbn [GEORADIUS_cells].
  - eexists _, _, _. reflexivity.
  - unfold bind.
    destruct (GEORADIUS_cell_returns cellID fuel None s st Hq)
      as (st1 & s1 & e & -> & Hi & Hp & Hs & _).
    { pose proof (length_entries_le key
                    (Between skGeoCell (AV_N (s2_RangeMin cellID))
                       (AV_N (s2_RangeMax cellID)))
                    (LSI skGeoCell) true (items st)). simpl. lia. }
    destruct e as [e|]; [eexists _, _, _; reflexivity|].
    apply IH; [exact Hs|rewrite Hi; exact Hfuel].
Qed.
End Search.

Lemma GetItem_answered k m projection st :
  hd Serve (script st) = Serve ->
  GetItem k m projection st =
    (mkStore (items st) (pageCap st) (tl (script st))
       (log st ++ [GetItemRequest k m projection]),
     Ret (project projection (find_item k m (items st)), None)).
Proof.
  unfold GetItem, Send.
  destruct (script st) as [|[|msg|k' m' a v] evs]; simpl; intros H;
    try discriminate; reflexivity.
Qed.

(** C10: for a member that is not stored, and a read that the store serves,
    the position lookup gives the empty map without error and the search
    runs around latitude 0, longitude 0. *)
Theorem GEORADIUSBYMEMBER_of_absent_member_searches_around_zero
    fuel key member radius radiusUnit count st :
  hd Serve (script st) = Serve ->
  find_item key member (items st) = None ->
  GEOPOS s2_LatLng key [member] st =
    (mkStore (items st) (pageCap st) (tl (script st))
       (log st ++ [GetItemRequest key member []]), Ret (∅, None))
  /\ GEORADIUSBYMEMBER s2_LatLng s2_Distance s2_CellUnionBound s2_RangeMin s2_RangeMax
       fuel key member radius radiusUnit count st
     = GEORADIUS s2_LatLng s2_Distance s2_CellUnionBound s2_RangeMin s2_RangeMax
         fuel key (mkLocation f64_zero f64_zero) radius radiusUnit count
         (mkStore (items st) (pageCap st) (tl (script st))
            (log st ++ [GetItemRequest key member []])).
Proof.
  intros Hserved Habsent.
  assert (Hpos : GEOPOS s2_LatLng key [member] st =
    (mkStore (items st) (pageCap st) (tl (script st))
       (log st ++ [GetItemRequest key member []]), Ret (∅, None))).
  { unfold GEOPOS. cbn [GEOPOS_loop]. unfold bind.
    rewrite GetItem_answered by assumption. rewrite Habsent. reflexivity. }
  split; [exact Hpos|].
  unfold GEORADIUSBYMEMBER, bind. rewrite Hpos. cbv iota beta.
  rewrite lookup_empty. reflexivity.
Qed.
End GeoFacts.

(** ** The claims on concrete collections *)


(** In the reverse direction the score of the tail is an upper bound too,
    where the members asked for lie above it: on m1 .. m5,
    [ZREVRANGE 1 (-2)] finds the tail m2 and returns m1, where the reverse
    ranks 1 .. 3 are m4, m3 and m2. *)
Lemma ZREVRANGE_bounds_the_tail_from_the_wrong_side :
  requests (ZREVRANGE RefCodec.floatToLex RefCodec.lexToFloat 2 "z" 1 (-2)) (five 100)
  = [QueryRequest (mkQuery "z" KeyOnly (LSI sk2) true (Some 2) None false);
     QueryRequest (mkQuery "z" (AtMost sk2 (AV_S "300012")) (LSI sk2) false None None false)]
  /\ snd (ZREVRANGE RefCodec.floatToLex RefCodec.lexToFloat 2 "z" 1 (-2) (five 100))
     = Ret ({[ "m1" := f64_of_Z 1 ]}, None).
Proof. vm_compute. repeat split; reflexivity. Qed.


(** C2 fails on the code: with a budget of 4 and pages of two entries, the
    second request asks for [Limit = 0] where the remaining budget is 2, and
    is refused; with no budget ([count = 0]) the scan stops after the first
    page of a collection of five. *)
Lemma zGeneralRange_second_page_limit_subtracts_twice :
  requests (_zGeneralRange RefCodec.lexToFloat 5 "z" "" "" 0 4 true sk2) (five 2)
  = [QueryRequest (mkQuery "z" KeyOnly (LSI sk2) true (Some 4) None false);
     QueryRequest (mkQuery "z" KeyOnly (LSI sk2) true (Some 0) (Some 2%nat) false)]
  /\ snd (_zGeneralRange RefCodec.lexToFloat 5 "z" "" "" 0 4 true sk2 (five 2))
     = Ret ({[ "m1" := f64_of_Z 1; "m2" := f64_of_Z 2 ]}, Some (ValidationException "Limit"))
  /\ requests (_zGeneralRange RefCodec.lexToFloat 5 "z" "" "" 0 0 true sk2) (five 2)
     = [QueryRequest (mkQuery "z" KeyOnly (LSI sk2) true None None false)]
  /\ snd (_zGeneralRange RefCodec.lexToFloat 5 "z" "" "" 0 0 true sk2 (five 2))
     = Ret ({[ "m1" := f64_of_Z 1; "m2" := f64_of_Z 2 ]}, None).
Proof. vm_compute. repeat split; reflexivity. Qed.

(** C5 fails on the code: [ZRANGE (-3) (-2)] on m1 .. m5 asks for [-start = 3]
    entries after the first from the top and returns m4, m3 and m2, where the
    tail positions -3 .. -2 hold m3 and m4 only. *)
Lemma ZRANGE_both_negative_takes_minus_start_members :
  snd (zrange 2 "z" (-3) (-2) (five 100))
  = Ret ({[ "m2" := f64_of_Z 2; "m3" := f64_of_Z 3; "m4" := f64_of_Z 4 ]}, None)
  /\ requests (zrange 2 "z" (-3) (-2)) (five 100)
     = [QueryRequest (mkQuery "z" KeyOnly (LSI sk2) false (Some 4) None false)].
Proof. vm_compute. repeat split; reflexivity. Qed.

(** C3 fails as stated: the only member of a collection has no member before
    it, and its rank is 0, not -1. *)
Lemma ZRANK_of_the_lowest_member_is_zero :
  snd (ZRANK RefCodec.floatToLex RefCodec.lexToFloat 2 "z" "m1" one_member)
  = Ret (0, true, None)
  /\ List.filter (fun it => String.ltb (default "" (item_sk2 it)) "300011")
       (items one_member) = [].
Proof. vm_compute. repeat split; reflexivity. Qed.

(** C3 at m3 of m1 .. m5, counted over pages of two entries: rank 2. *)
Lemma zrank_witness :
  exists b st',
    big.NewFloat (decode RefCodec.lexToFloat "300013") = Ret b
    /\ _zrank RefCodec.floatToLex RefCodec.lexToFloat 6 "z" "m3" true (five 2)
       = (st', Ret (2, true, None)).
Proof.
  destruct (zrank_counts_members_up_to_its_score
              RefCodec.floatToLex RefCodec.lexToFloat 6 "z" "m3" true (five 2)
              eq_refl ltac:(vm_compute; lia)) as (b & st' & Hb & Hrun).
  exists b, st'. split; [exact Hb|].
  rewrite Hrun. vm_compute in Hb. injection Hb as <-. vm_compute. reflexivity.
Defined.




(** Three rounds, each overtaken by another client's write, end in the
    contention error; each write carried the score just read as its
    condition. *)
Lemma ZINCRBY_reports_contention_after_three_conflicts :
  snd (ZINCRBY RefCodec.floatToLex RefCodec.lexToFloat "z" "m2" half contended)
  = Ret (f64_ldexp 9 (-1), Some (Errorf "too much contention on z / m2"))
  /\ requests (ZINCRBY RefCodec.floatToLex RefCodec.lexToFloat "z" "m2" half) contended
     = [GetItemRequest "z" "m2" [sk2];
        UpdateItemRequest "z" "m2" sk2 (AV_S "3000125")
          [attribute_equals sk2 (AV_S "300012")];
        GetItemRequest "z" "m2" [sk2];
        UpdateItemRequest "z" "m2" sk2 (AV_S "3000135")
          [attribute_equals sk2 (AV_S "300013")];
        GetItemRequest "z" "m2" [sk2];
        UpdateItemRequest "z" "m2" sk2 (AV_S "3000145")
          [attribute_equals sk2 (AV_S "300014")]].
Proof. vm_compute. repeat split; reflexivity. Qed.

(** The increment of the tests: m2 of score 2 plus 0.5 is 2.5, and a score
    lookup confirms it. *)
Lemma ZINCRBY_adds_to_the_stored_score :
  snd (ZINCRBY RefCodec.floatToLex RefCodec.lexToFloat "z" "m2" half (five 100))
  = Ret (f64_ldexp 5 (-1), None)
  /\ snd (ZSCORE RefCodec.lexToFloat "z" "m2"
            (fst (ZINCRBY RefCodec.floatToLex RefCodec.lexToFloat "z" "m2" half (five 100))))
     = Ret (f64_ldexp 5 (-1), true, None).
Proof. vm_compute. repeat split; reflexivity. Qed.

(** C9 fails as stated: when the store cuts the index into pages of two
    entries, [ZRANGE 0 (-2)] sends one request and returns m1 and m2 only, of a
    collection that also holds m5. *)
Lemma ZRANGE_from_zero_stops_after_the_first_page :
  snd (zrange 5 "z" 0 (-2) (five 2))
  = Ret ({[ "m1" := f64_of_Z 1; "m2" := f64_of_Z 2 ]}, None)
  /\ requests (zrange 5 "z" 0 (-2)) (five 2)
     = [QueryRequest (mkQuery "z" KeyOnly (LSI sk2) true None None false)]
  /\ In (scored "z" "m5" 5) (items (five 2)).
Proof. vm_compute. repeat split; try reflexivity. tauto. Qed.

(** C9 at [ZRANGE 0 (-2)] on m1 .. m5 in one page: m5 is returned. *)
Lemma ZRANGE_from_zero_witness :
  exists members,
    zrange 1 "z" 0 (-2) (five 100)
    = (logged (QueryRequest (mkQuery "z" KeyOnly (LSI sk2) true None None false)) (five 100),
       Ret (members, None))
    /\ is_Some (members !! "m5").
Proof.
  destruct (ZRANGE_from_zero_returns_the_whole_page
              RefCodec.floatToLex RefCodec.lexToFloat 0 "z" (-2) (five 100)
              ltac:(lia) eq_refl ltac:(vm_compute; lia) ltac:(vm_compute; reflexivity))
    as (members & Hrun & _ & Hall).
  exists members. split; [exact Hrun|].
  apply (Hall (scored "z" "m5" 5)).
  - vm_compute. tauto.
  - reflexivity.
  - vm_compute. discriminate.
Defined.

(** C7 on the line: both places are candidates of the one covering cell; the
    search of 10 000 km around the origin keeps "near" (6 373 km) and leaves
    out "far" (12 746 km). *)
Lemma GEORADIUS_witness :
  snd (georadius 3 "g" origin ten_thousand_km Meters 10 Line.places)
  = Ret ({[ "near" := Line.LatLng 1 ]}, None)
  /\ (forall member location,
        ({[ "near" := Line.LatLng 1 ]} : gmap string Location) !! member = Some location ->
        f64_le (DistanceTo Line.Distance origin location Meters) ten_thousand_km = true)
  /\ ({[ "near" := Line.LatLng 1 ]} : gmap string Location) !! "far" = None.
Proof.
  assert (Hrun : georadius 3 "g" origin ten_thousand_km Meters 10 Line.places
                 = (fst (georadius 3 "g" origin ten_thousand_km Meters 10 Line.places),
                    Ret ({[ "near" := Line.LatLng 1 ]}, None)))
    by (vm_compute; reflexivity).
  destruct (GEORADIUS_keeps_only_members_within_radius
              Line.LatLng Line.Distance Line.CellUnionBound Line.RangeMin Line.RangeMax
              "g" origin ten_thousand_km Meters 3 10 Line.places _ _ _ Hrun)
    as [Hwithin Hfar].
  split; [rewrite Hrun; reflexivity|]. split; [exact Hwithin|].
  apply Hfar; [reflexivity|].
  intros it [<-|[<-|[]]] _ Hsk; [discriminate Hsk|].
  vm_compute. reflexivity.
Defined.

(** C8 fails as stated: when the second write fails, one write has been
    completed and the count returned with the error is 0. *)
Lemma GEOADD_returns_zero_after_a_completed_write :
  GEOADD Line.CellIDFromLatLng "g" [("a", Line.LatLng 1); ("b", Line.LatLng 2)]
    failing_second_write
  = (mkStore [Line.at_latitude "g" "a" 1] 100 []
       [UpdateItemRequest "g" "a" skGeoCell (AV_N 1) [];
        UpdateItemRequest "g" "b" skGeoCell (AV_N 2) []],
     Ret (0, Some (StoreError "unavailable"))).
Proof. vm_compute. reflexivity. Qed.

(** C10 on the line: "nowhere" is not stored, its lookup gives the empty map,
    and the search runs around the origin, where it finds "near". *)
Lemma GEORADIUSBYMEMBER_witness :
  find_item "g" "nowhere" (items Line.places) = None
  /\ snd (GEOPOS Line.LatLng "g" ["nowhere"] Line.places) = Ret (∅, None)
  /\ snd (GEORADIUSBYMEMBER Line.LatLng Line.Distance Line.CellUnionBound Line.RangeMin
            Line.RangeMax 3 "g" "nowhere" ten_thousand_km Meters 10 Line.places)
     = Ret ({[ "near" := Line.LatLng 1 ]}, None).
Proof.
  destruct (GEORADIUSBYMEMBER_of_absent_member_searches_around_zero
              Line.LatLng Line.Distance Line.CellUnionBound Line.RangeMin Line.RangeMax
              3 "g" "nowhere" ten_thousand_km Meters 10 Line.places eq_refl eq_refl)
    as [Hpos Hrun].
  split; [reflexivity|]. split; [rewrite Hpos; reflexivity|].
  rewrite Hrun. vm_compute. reflexivity.
Defined.

(** * Further properties *)

(** ** The table under writes and deletions *)

Lemma same_key_iff key member it :
  same_key key member it = true <-> item_pk it = key /\ item_sk it = member.
Proof.
  unfold same_key. rewrite andb_true_iff, !String.eqb_eq. tauto.
Qed.

Lemma same_key_other key member key' member' it :
  key <> key' \/ member <> member' ->
  same_key key member it = true -> same_key key' member' it = false.
Proof.
  intros Hne H. apply same_key_iff in H. destruct H as [Hp Hs].
  destruct (same_key key' member' it) eqn:E; [|reflexivity].
  apply same_key_iff in E. destruct E as [Hp' Hs']. destruct Hne; congruence.
Qed.

Lemma find_put_attr_other key member a v key' member' tbl :
  key <> key' \/ member <> member' ->
  find_item key' member' (put_attr key member a v tbl) = find_item key' member' tbl.
Proof.
  intros Hne. unfold find_item.
  induction tbl as [|it tbl IH]; cbn [put_attr List.find].
  - rewrite same_key_set_attr.
    rewrite (same_key_other key member key' member' _ Hne (same_key_refl key member None None)).
    reflexivity.
  - destruct (same_key key member it) eqn:E; cbn [List.find].
    + rewrite same_key_set_attr, (same_key_other _ _ _ _ _ Hne E). reflexivity.
    + rewrite IH. reflexivity.
Qed.

Lemma put_attr_same key member s tbl it :
  find_item key member tbl = Some it ->
  item_sk2 it = Some s ->
  put_attr key member sk2 (AV_S s) tbl = tbl.
Proof.
  unfold find_item. induction tbl as [|x tbl IH]; cbn [put_attr List.find];
    intros Hfind Hs; [discriminate|].
  destruct (same_key key member x) eqn:E.
  - injection Hfind as ->. destruct it as [p k s2 g]. simpl in Hs. subst s2. reflexivity.
  - rewrite (IH Hfind Hs). reflexivity.
Qed.

Lemma find_remove_item key member tbl :
  find_item key member (remove_item key member tbl) = None.
Proof.
  unfold find_item, remove_item. induction tbl as [|it tbl IH]; simpl; [reflexivity|].
  destruct (same_key key member it) eqn:E; simpl; [exact IH|].
  rewrite E. exact IH.
Qed.

Lemma find_remove_item_other key member key' member' tbl :
  key <> key' \/ member <> member' ->
  find_item key' member' (remove_item key member tbl) = find_item key' member' tbl.
Proof.
  intros Hne. unfold find_item, remove_item.
  induction tbl as [|it tbl IH]; simpl; [reflexivity|].
  destruct (same_key key member it) eqn:E; simpl.
  - rewrite (same_key_other _ _ _ _ _ Hne E). exact IH.
  - rewrite IH. reflexivity.
Qed.

Lemma remove_item_absent key member tbl :
  find_item key member tbl = None -> remove_item key member tbl = tbl.
Proof.
  unfold find_item, remove_item. induction tbl as [|it tbl IH]; simpl; [reflexivity|].
  destruct (same_key key member it) eqn:E; simpl; [discriminate|].
  intros H. rewrite (IH H). reflexivity.
Qed.

Lemma unique_keys_tail it tbl : unique_keys (it :: tbl) -> unique_keys tbl.
Proof. unfold unique_keys. simpl. intros H. inversion H. assumption. Qed.

Lemma unique_keys_head it tbl :
  unique_keys (it :: tbl) -> find_item (item_pk it) (item_sk it) tbl = None.
Proof.
  unfold unique_keys. simpl. intros H. inversion H as [|? ? Hnot _]. subst.
  destruct (find_item (item_pk it) (item_sk it) tbl) as [x|] eqn:E; [|reflexivity].
  exfalso. apply Hnot. unfold find_item in E. apply List.find_some in E.
  destruct E as [Hin Hsame]. apply same_key_iff in Hsame. destruct Hsame as [Hp Hs].
  apply in_map_iff. exists x. split; [rewrite Hp, Hs; reflexivity|exact Hin].
Qed.

Lemma unique_keys_remove key member tbl :
  unique_keys tbl -> unique_keys (remove_item key member tbl).
Proof.
  unfold unique_keys, remove_item. induction tbl as [|it tbl IH]; simpl; intros H; [exact H|].
  inversion H as [|? ? Hnot Htl]. subst.
  destruct (negb (same_key key member it)); simpl; [|apply IH; exact Htl].
  constructor; [|apply IH; exact Htl].
  intros Hin. apply Hnot. apply in_map_iff in Hin. destruct Hin as (x & Hx & Hin).
  apply filter_In in Hin. apply in_map_iff. exists x. tauto.
Qed.

Lemma length_remove_item key member tbl it :
  unique_keys tbl ->
  find_item key member tbl = Some it ->
  S (length (remove_item key member tbl)) = length tbl.
Proof.
  unfold find_item. induction tbl as [|x tbl IH]; simpl; intros Hu Hfind; [discriminate|].
  destruct (same_key key member x) eqn:E; simpl.
  - apply same_key_iff in E. destruct E as [<- <-].
    fold (remove_item (item_pk x) (item_sk x) tbl).
    rewrite remove_item_absent by (apply unique_keys_head; exact Hu). reflexivity.
  - f_equal. apply IH; [eapply unique_keys_tail; exact Hu|exact Hfind].
Qed.

(** ** Adding members *)

Lemma DeleteItem_quiet key member conditions st :
  script st = [] ->
  DeleteItem key member conditions st =
    if List.forallb (fun c => holds c (find_item key member (items st))) conditions
    then (with_items (remove_item key member (items st)) st, Ret None)
    else (st, Ret (Some ConditionalCheckFailedException)).
Proof.
  intros Hq. unfold DeleteItem, serve_delete. rewrite Hq.
  destruct (List.forallb _ conditions); reflexivity.
Qed.

Section AddFacts.
Variable floatToLex : big.Float -> string.
Variable lexToFloat : string -> big.Float.
Variable key : string.

Lemma with_scores_cons m x members tbl :
  with_scores floatToLex key ((m, x) :: members) tbl
  = with_scores floatToLex key members
      (match big.NewFloat x with
       | Ret b => put_attr key m sk2 (AV_S (floatToLex b)) tbl
       | _ => tbl
       end).
Proof. reflexivity. Qed.

Lemma ZADD_loop_quiet : forall members n st,
  script st = [] ->
  in_int64 n ->
  Forall (fun p => is_nan (snd p) = false) members ->
  exists st',
    ZADD_loop floatToLex key members [] n None st
    = (st', Ret (int64 (n + Z.of_nat (length members)), None))
    /\ script st' = []
    /\ items st' = with_scores floatToLex key members (items st).
Proof.
  induction members as [|[m x] members IH]; intros n st Hq Hn Hall.
  - exists st. simpl. rewrite Z.add_0_r, int64_small by assumption. auto.
  - inversion Hall as [|? ? Hx Hrest]. subst. simpl in Hx.
    destruct (NewFloat_not_nan x Hx) as [b Hb].
    cbn [ZADD_loop has List.existsb app]. unfold bind at 1.
    rewrite (encode_ok floatToLex x b st Hb). unfold bind.
    rewrite UpdateItem_quiet by assumption. cbn [List.forallb conditionFailureError].
    destruct (IH (int64 (n + 1))
                (with_items (put_attr key m sk2 (AV_S (floatToLex b)) (items st))
                   (logged (UpdateItemRequest key m sk2 (AV_S (floatToLex b)) []) st)))
      as (st' & Hrun & Hq' & Hitems); [reflexivity|apply int64_range|exact Hrest|].
    exists st'. rewrite Hrun. split; [|split; [exact Hq'|]].
    + rewrite int64_add_l. do 3 f_equal. apply (f_equal int64).
      cbn [length]. lia.
    + rewrite Hitems, with_scores_cons, Hb. reflexivity.
Qed.

Lemma find_with_scores_other members : forall tbl key' member',
  (key <> key' \/ ~ In member' (List.map fst members)) ->
  find_item key' member' (with_scores floatToLex key members tbl)
  = find_item key' member' tbl.
Proof.
  induction members as [|[m x] members IH]; intros tbl key' member' Hne; [reflexivity|].
  rewrite with_scores_cons.
  rewrite IH by (simpl in Hne; tauto).
  destruct (big.NewFloat x); try reflexivity.
  apply find_put_attr_other. simpl in Hne. tauto.
Qed.

Lemma find_with_scores members : forall tbl m x b,
  List.NoDup (List.map fst members) ->
  In (m, x) members ->
  big.NewFloat x = Ret b ->
  find_item key m (with_scores floatToLex key members tbl) ≫= item_sk2
  = Some (floatToLex b).
Proof.
  induction members as [|[m0 x0] members IH]; intros tbl m x b Hnd Hin Hb; [destruct Hin|].
  rewrite with_scores_cons.
  simpl in Hnd. inversion Hnd as [|? ? Hnot Hnd']. subst.
  destruct Hin as [Heq|Hin].
  - injection Heq as -> ->. rewrite Hb.
    rewrite find_with_scores_other by (right; exact Hnot).
    apply find_put_attr_sk2.
  - eapply IH; eassumption.
Qed.

(** X1: on a store that neither fails nor interferes, an add without flags of
    members with distinct names and no NaN score counts every member,
    returns no error, stores for each member the encoding of its score, so
    that a score lookup finds the decoding of that encoding, and leaves every
    other item as it was. *)
Theorem ZADD_stores_every_score members st :
  script st = [] ->
  List.NoDup (List.map fst members) ->
  Forall (fun p => is_nan (snd p) = false) members ->
  exists st',
    ZADD floatToLex key members [] st
    = (st', Ret (int64 (Z.of_nat (length members)), None))
    /\ (forall m x b,
          In (m, x) members -> big.NewFloat x = Ret b ->
          snd (ZSCORE lexToFloat key m st')
          = Ret (decode lexToFloat (floatToLex b), true, None))
    /\ (forall key' member',
          key <> key' \/ ~ In member' (List.map fst members) ->
          find_item key' member' (items st') = find_item key' member' (items st)).
Proof.
  intros Hq Hnd Hall.
  destruct (ZADD_loop_quiet members 0 st Hq ltac:(unfold in_int64; lia) Hall)
    as (st' & Hrun & Hq' & Hitems).
  exists st'. split; [exact Hrun|]. split.
  - intros m x b Hin Hb. rewrite ZSCORE_quiet by assumption. rewrite Hitems.
    rewrite (find_with_scores members (items st) m x b Hnd Hin Hb). reflexivity.
  - intros key' member' Hne. rewrite Hitems. apply find_with_scores_other. exact Hne.
Qed.
End AddFacts.

Section FlagFacts.
Variable floatToLex : big.Float -> string.
Variable key : string.

Lemma ZADD_step_quiet m x b flags st :
  script st = [] ->
  big.NewFloat x = Ret b ->
  exists st' err,
    (lex <- encode floatToLex x ;;
     UpdateItem key m sk2 (AV_S lex)
       ((if has flags IfNotExists then [attribute_not_exists pk] else [])
        ++ (if has flags IfAlreadyExists then [attribute_exists pk] else []))%list) st
    = (st', Ret err)
    /\ script st' = []
    /\ ((err = None
         /\ items st' = put_attr key m sk2 (AV_S (floatToLex b)) (items st)
         /\ (has flags IfNotExists = true -> find_item key m (items st) = None)
         /\ (has flags IfAlreadyExists = true -> find_item key m (items st) <> None))
        \/ (err = Some ConditionalCheckFailedException
            /\ items st' = items st
            /\ ((has flags IfNotExists = true /\ find_item key m (items st) <> None)
                \/ (has flags IfAlreadyExists = true /\ find_item key m (items st) = None)))).
Proof.
  intros Hq Hb. unfold bind. rewrite (encode_ok floatToLex x b st Hb).
  rewrite UpdateItem_quiet by assumption.
  destruct (has flags IfNotExists), (has flags IfAlreadyExists);
    destruct (find_item key m (items st)) as [it|] eqn:Hfind;
    cbn [app List.forallb holds item_attr has_value negb andb];
    eexists _, _; (split; [reflexivity|]); (split; [reflexivity|]);
    try (left; repeat split; (reflexivity || congruence));
    right; repeat split; try reflexivity;
    ((left; split; [reflexivity|congruence]) || (right; split; reflexivity)).
Qed.

(** What a run of the loop keeps, on a store that neither fails nor
    interferes: the store stays so, and a property of the table that every
    permitted write preserves still holds. *)
Lemma ZADD_loop_keeps (P : list Item -> Prop) flags :
  (forall m s tbl,
     P tbl ->
     (has flags IfNotExists = true -> find_item key m tbl = None) ->
     (has flags IfAlreadyExists = true -> find_item key m tbl <> None) ->
     P (put_attr key m sk2 (AV_S s) tbl)) ->
  forall members n e st,
    script st = [] -> P (items st) ->
    script (fst (ZADD_loop floatToLex key members flags n e st)) = []
    /\ P (items (fst (ZADD_loop floatToLex key members flags n e st))).
Proof.
  intros Hput. induction members as [|[m x] members IH]; intros n e st Hq HP.
  - split; assumption.
  - rewrite ZADD_loop_cons.
    destruct (is_nan x) eqn:Hx.
    + assert (x = S754_nan) as -> by (destruct x; try discriminate; reflexivity).
      unfold bind. rewrite encode_nan. split; assumption.
    + destruct (NewFloat_not_nan x Hx) as [b Hb].
      destruct (ZADD_step_quiet m x b flags st Hq Hb)
        as (st' & err & -> & Hq' & [(-> & Hi & Hno & Hyes)|(-> & Hi & _)]).
      * cbn [conditionFailureError]. apply IH; [exact Hq'|].
        rewrite Hi. apply Hput; assumption.
      * cbn [conditionFailureError]. apply IH; [exact Hq'|]. rewrite Hi. exact HP.
Qed.

(** X2: on a store that neither fails nor interferes, an add with the flag
    [IfNotExists] leaves every item that was stored before the call exactly
    as it was, whatever the members and scores. *)
Theorem ZADD_IfNotExists_never_changes_a_stored_item members flags st key' member' it :
  has flags IfNotExists = true ->
  script st = [] ->
  find_item key' member' (items st) = Some it ->
  find_item key' member' (items (fst (ZADD floatToLex key members flags st))) = Some it.
Proof.
  intros Hflag Hq Hfind. unfold ZADD.
  apply (ZADD_loop_keeps (fun tbl => find_item key' member' tbl = Some it) flags);
    [|exact Hq|exact Hfind].
  intros m s tbl HP Hno _.
  rewrite find_put_attr_other; [exact HP|].
  destruct (decide (key = key')) as [<-|]; [|left; assumption].
  destruct (decide (m = member')) as [<-|]; [|right; assumption].
  rewrite (Hno Hflag) in HP. discriminate.
Qed.

(** X3: on a store that neither fails nor interferes, an add with the flag
    [IfAlreadyExists] creates no item: a key with no item before the call has
    none after it. *)
Theorem ZADD_IfAlreadyExists_never_creates_an_item members flags st key' member' :
  has flags IfAlreadyExists = true ->
  script st = [] ->
  find_item key' member' (items st) = None ->
  find_item key' member' (items (fst (ZADD floatToLex key members flags st))) = None.
Proof.
  intros Hflag Hq Hfind. unfold ZADD.
  apply (ZADD_loop_keeps (fun tbl => find_item key' member' tbl = None) flags);
    [|exact Hq|exact Hfind].
  intros m s tbl HP _ Hyes.
  rewrite find_put_attr_other; [exact HP|].
  destruct (decide (key = key')) as [<-|]; [|left; assumption].
  destruct (decide (m = member')) as [<-|]; [|right; assumption].
  exfalso. apply (Hyes Hflag). exact HP.
Qed.

Lemma ZADD_loop_last_condition_failure flags m x it :
  has flags IfNotExists = true ->
  forall before n e st,
    script st = [] ->
    Forall (fun p => is_nan (snd p) = false) (before ++ [(m, x)]) ->
    find_item key m (items st) = Some it ->
    exists st' n',
      ZADD_loop floatToLex key (before ++ [(m, x)]) flags n e st
      = (st', Ret (n', Some ConditionalCheckFailedException)).
Proof.
  intros Hflag. induction before as [|[m0 x0] before IH]; intros n e st Hq Hall Hfind.
  - cbn [app]. rewrite ZADD_loop_cons.
    inversion Hall as [|? ? Hx _]. subst. simpl in Hx.
    destruct (NewFloat_not_nan x Hx) as [b Hb].
    destruct (ZADD_step_quiet m x b flags st Hq Hb)
      as (st' & err & -> & Hq' & [(-> & Hi & Hno & Hyes)|(-> & Hi & _)]).
    + rewrite (Hno Hflag) in Hfind. discriminate.
    + cbn [conditionFailureError ZADD_loop]. eexists _, _. reflexivity.
  - cbn [app]. rewrite ZADD_loop_cons.
    inversion Hall as [|? ? Hx Hrest]. subst. simpl in Hx.
    destruct (NewFloat_not_nan x0 Hx) as [b Hb].
    destruct (ZADD_step_quiet m0 x0 b flags st Hq Hb)
      as (st' & err & -> & Hq' & [(-> & Hi & Hno & Hyes)|(-> & Hi & _)]).
    + cbn [conditionFailureError]. apply IH; [exact Hq'|exact Hrest|].
      rewrite Hi, find_put_attr_other; [exact Hfind|].
      destruct (decide (m0 = m)) as [<-|]; [|right; assumption].
      rewrite (Hno Hflag) in Hfind. discriminate.
    + cbn [conditionFailureError]. apply IH; [exact Hq'|exact Hrest|].
      rewrite Hi. exact Hfind.
Qed.

(** X4: the condition failure of a member is dropped only when another member
    follows it: on a store that neither fails nor interferes, when the member that the loop visits last is already stored
    and the flag is [IfNotExists], the add returns
    [ConditionalCheckFailedException] beside its count. *)
Theorem ZADD_returns_the_condition_failure_of_the_last_member
    flags before m x it st :
  has flags IfNotExists = true ->
  script st = [] ->
  Forall (fun p => is_nan (snd p) = false) (before ++ [(m, x)]) ->
  find_item key m (items st) = Some it ->
  exists st' n,
    ZADD floatToLex key (before ++ [(m, x)]) flags st
    = (st', Ret (n, Some ConditionalCheckFailedException)).
Proof.
  intros Hflag Hq Hall Hfind. unfold ZADD.
  eapply ZADD_loop_last_condition_failure; eassumption.
Qed.

(** X5: on a store that neither fails nor interferes, adding a member again
    with the score it has leaves the table as it is, and counts the member. *)
Theorem ZADD_of_the_stored_score_changes_nothing m x b it st :
  script st = [] ->
  find_item key m (items st) = Some it ->
  big.NewFloat x = Ret b ->
  item_sk2 it = Some (floatToLex b) ->
  exists st',
    ZADD floatToLex key [(m, x)] [] st = (st', Ret (1, None))
    /\ items st' = items st.
Proof.
  intros Hq Hfind Hb Hs.
  destruct (ZADD_loop_quiet floatToLex key [(m, x)] 0 st Hq) as (st' & Hrun & _ & Hi).
  - unfold in_int64. lia.
  - constructor; [|constructor]. simpl. destruct x; try reflexivity. discriminate.
  - exists st'. split; [exact Hrun|].
    rewrite Hi, with_scores_cons, Hb. cbn [with_scores List.fold_left].
    apply (put_attr_same key m _ _ it Hfind Hs).
Qed.
End FlagFacts.

(** ** Removing members *)

Section RemoveFacts.
Variable key : string.

Lemma find_without_other members : forall tbl key' member',
  key <> key' \/ ~ In member' members ->
  find_item key' member' (without key members tbl) = find_item key' member' tbl.
Proof.
  induction members as [|m members IH]; intros tbl key' member' Hne; [reflexivity|].
  cbn [without List.fold_left]. fold (without key members (remove_item key m tbl)).
  rewrite IH by (simpl in Hne; tauto).
  apply find_remove_item_other. simpl in Hne. tauto.
Qed.

Lemma find_without members : forall tbl m,
  In m members -> find_item key m (without key members tbl) = None.
Proof.
  induction members as [|m0 members IH]; intros tbl m Hin; [destruct Hin|].
  cbn [without List.fold_left]. fold (without key members (remove_item key m0 tbl)).
  destruct (in_dec string_dec m members) as [Hm|Hm]; [apply IH; exact Hm|].
  destruct Hin as [->|Hin]; [|contradiction].
  rewrite find_without_other by (right; exact Hm). apply find_remove_item.
Qed.

Lemma ZREM_loop_quiet : forall members n st,
  script st = [] ->
  unique_keys (items st) ->
  in_int64 n ->
  exists st',
    ZREM_loop key members n st
    = (st', Ret (int64 (n + Z.of_nat (length (items st) - length (items st'))), None))
    /\ script st' = []
    /\ items st' = without key members (items st)
    /\ (length (items st') <= length (items st))%nat.
Proof.
  induction members as [|m members IH]; intros n st Hq Hu Hn.
  - exists st. cbn [ZREM_loop without List.fold_left].
    rewrite Nat.sub_diag, Z.add_0_r, int64_small by assumption. auto.
  - cbn [ZREM_loop]. unfold bind. rewrite DeleteItem_quiet by assumption.
    cbn [List.forallb]. cbn [without List.fold_left].
    fold (without key members (remove_item key m (items st))).
    destruct (find_item key m (items st)) as [it|] eqn:Hfind;
      cbn [holds item_attr has_value andb conditionFailureError].
    + pose proof (length_remove_item key m (items st) it Hu Hfind) as Hlen.
      destruct (IH (int64 (n + 1)) (with_items (remove_item key m (items st)) st))
        as (st' & Hrun & Hq' & Hi & Hle);
        [exact Hq|apply unique_keys_remove; exact Hu|apply int64_range|].
      cbn [items with_items] in *.
      exists st'. rewrite Hrun. split; [|split; [exact Hq'|split; [exact Hi|lia]]].
      rewrite int64_add_l. do 3 f_equal. apply (f_equal int64). lia.
    + destruct (IH n st Hq Hu Hn) as (st' & Hrun & Hq' & Hi & Hle).
      exists st'. rewrite Hrun. split; [reflexivity|]. split; [exact Hq'|].
      split; [|exact Hle]. rewrite Hi, (remove_item_absent key m _ Hfind). reflexivity.
Qed.

(** X6: on a store that neither fails nor interferes, a removal returns no
    error and counts exactly the items it removed (the number of items lost
    by the table); afterwards none of the named members is stored, and every
    other item is as it was.  A member that is not stored, or is named twice,
    is passed over. *)
Theorem ZREM_counts_what_it_removes members st :
  script st = [] ->
  unique_keys (items st) ->
  exists st',
    ZREM key members st
    = (st', Ret (int64 (Z.of_nat (length (items st) - length (items st'))), None))
    /\ (forall m, In m members -> find_item key m (items st') = None)
    /\ (forall key' member',
          key <> key' \/ ~ In member' members ->
          find_item key' member' (items st') = find_item key' member' (items st)).
Proof.
  intros Hq Hu.
  destruct (ZREM_loop_quiet members 0 st Hq Hu ltac:(unfold in_int64; lia))
    as (st' & Hrun & _ & Hi & _).
  exists st'. split; [exact Hrun|]. rewrite Hi. split.
  - intros m Hin. apply find_without. exact Hin.
  - intros key' member' Hne. apply find_without_other. exact Hne.
Qed.
End RemoveFacts.

(** ** Counting and scanning *)

Lemma Query_items_selected q st st' out :
  script st = [] ->
  Query q st = (st', Ret (inl out)) ->
  st' = logged (QueryRequest q) st
  /\ forall it, In it (Items out) ->
       In it (items st) /\ selects (q_key q) (q_condition q) (q_index q) it = true.
Proof.
  intros Hq. rewrite Query_quiet by assumption. intros H.
  injection H as <- Hout. split; [reflexivity|].
  intros it Hin. apply In_entries with (forward := q_forward q).
  change (In it (matching q (items st))).
  unfold serve_query in Hout.
  destruct (q_limit q) as [l|].
  - destruct (l <? 1); [discriminate|]. injection Hout as <-. simpl in Hin.
    destruct (q_select_count q); [destruct Hin|].
    eapply In_drop, In_take; exact Hin.
  - injection Hout as <-. simpl in Hin.
    destruct (q_select_count q); [destruct Hin|].
    eapply In_drop, In_take; exact Hin.
Qed.

Section ScanFacts.
Variable floatToLex : big.Float -> string.
Variable lexToFloat : string -> big.Float.

(** X7: on a store that neither fails nor interferes, and whatever the size
    of its pages, the count by name is exactly the number of items of the
    collection whose name the bounds keep, an empty bound leaving its side
    open. *)
Theorem ZLEXCOUNT_is_exact_over_pages fuel key min max st :
  script st = [] ->
  (length (items st) < fuel)%nat ->
  exists st',
    ZLEXCOUNT fuel key min max st
    = (st', Ret (int64 (Z.of_nat (length
                   (List.filter (selects key (range_condition sk min max) Primary)
                      (items st)))), None)).
Proof.
  intros Hq Hfuel. unfold ZLEXCOUNT, _zGeneralCount.
  destruct (_zGeneralCount_loop_quiet key (range_condition sk min max) (index_for sk)
              fuel None 0 st Hq) as (st' & Hrun & _).
  - pose proof (length_entries_le key (range_condition sk min max) (index_for sk) true
                  (items st)). simpl. lia.
  - exists st'. rewrite Hrun. simpl. rewrite length_entries, Nat.sub_0_r. reflexivity.
Qed.

(** X8: likewise the count by score is exactly the number of members whose
    encoded score lies between the encodings of the two bounds. *)
Theorem ZCOUNT_is_exact_over_pages fuel key minScore maxScore lo hi st :
  script st = [] ->
  (length (items st) < fuel)%nat ->
  big.NewFloat minScore = Ret lo ->
  big.NewFloat maxScore = Ret hi ->
  exists st',
    ZCOUNT floatToLex fuel key minScore maxScore st
    = (st', Ret (int64 (Z.of_nat (length
                   (List.filter
                      (selects key (range_condition sk2 (floatToLex lo) (floatToLex hi))
                         (LSI sk2)) (items st)))), None)).
Proof.
  intros Hq Hfuel Hlo Hhi. unfold ZCOUNT, bind.
  rewrite (encode_ok floatToLex minScore lo st Hlo).
  rewrite (encode_ok floatToLex maxScore hi st Hhi).
  unfold _zGeneralCount.
  destruct (_zGeneralCount_loop_quiet key
              (range_condition sk2 (floatToLex lo) (floatToLex hi)) (index_for sk2)
              fuel None 0 st Hq) as (st' & Hrun & _).
  - pose proof (length_entries_le key (range_condition sk2 (floatToLex lo) (floatToLex hi))
                  (index_for sk2) true (items st)). simpl. lia.
  - exists st'. rewrite Hrun. simpl. rewrite length_entries, Nat.sub_0_r. reflexivity.
Qed.

Section Soundness.
Variables (key start stop : string) (offset : Z) (forward : bool) (attribute : attr).
Variable tbl : list Item.

Lemma collect_fold_sound page : forall s,
  (forall it, In it page ->
     In it tbl /\ selects key (range_condition attribute start stop)
                    (index_for attribute) it = true) ->
  (collected_from lexToFloat tbl key (range_condition attribute start stop)
     (index_for attribute) (sc_members s)) ->
  (collected_from lexToFloat tbl key (range_condition attribute start stop)
     (index_for attribute)
     (sc_members (List.fold_left (collect lexToFloat offset) page s))).
Proof.
  induction page as [|item page IH]; intros s Hpage Hs; [exact Hs|].
  cbn [List.fold_left]. apply IH; [intros it Hin; apply Hpage; right; exact Hin|].
  unfold collect. destruct (sc_index s >=? offset); cbn [sc_members]; [|exact Hs].
  intros name v Hlook. apply lookup_insert_Some in Hlook.
  destruct Hlook as [[<- <-]|[_ Hlook]]; [|apply Hs; exact Hlook].
  destruct (Hpage item (or_introl eq_refl)) as [Hin Hsel].
  exists item. auto.
Qed.

Lemma _zGeneralRange_loop_sound fuel : forall lastKey s st st' m err,
  script st = [] -> items st = tbl ->
  (collected_from lexToFloat tbl key (range_condition attribute start stop)
     (index_for attribute) (sc_members s)) ->
  _zGeneralRange_loop lexToFloat fuel key start stop offset forward attribute lastKey s st
  = (st', Ret (m, err)) ->
  (collected_from lexToFloat tbl key (range_condition attribute start stop)
     (index_for attribute) m).
Proof.
  induction fuel as [|fuel IH]; intros lastKey s st st' m err Hq Hi Hs Hrun;
    cbn [_zGeneralRange_loop] in Hrun; [discriminate|].
  unfold bind in Hrun.
  set (q := mkQuery key _ _ forward _ lastKey false) in Hrun.
  destruct (Query q st) as [st1 [[out|e]|p|]] eqn:Hquery; try discriminate.
  - destruct (Query_items_selected q st st1 out Hq Hquery) as [-> Hin].
    rewrite Hi in Hin.
    pose proof (collect_fold_sound (Items out) s Hin Hs) as Hs1.
    destruct (LastEvaluatedKey out) as [k|].
    + destruct (sc_remaining _ >? 0).
      * eapply IH; [| |exact Hs1|exact Hrun]; [reflexivity|exact Hi].
      * injection Hrun as <- <- <-. exact Hs1.
    + injection Hrun as <- <- <-. exact Hs1.
  - injection Hrun as <- <- <-. exact Hs.
Qed.
End Soundness.

Lemma _zGeneralRange_sound
    fuel key start stop offset count forward attribute st st' m err :
  script st = [] ->
  _zGeneralRange lexToFloat fuel key start stop offset count forward attribute st
  = (st', Ret (m, err)) ->
  collected_from lexToFloat (items st) key (range_condition attribute start stop)
    (index_for attribute) m.
Proof.
  intros Hq Hrun. unfold _zGeneralRange in Hrun.
  refine (_zGeneralRange_loop_sound key start stop offset forward attribute (items st)
            fuel None _ st st' m err Hq eq_refl _ Hrun).
  intros name v Hlook. simpl in Hlook. rewrite lookup_empty in Hlook. discriminate.
Qed.

(** X9: on a store that neither fails nor interferes, whatever the size of
    its pages, the offset and the budget, every member that a scan returns
    (also beside an error) is the name of a stored item of the collection
    that the index lists and the bounds keep, with the decoded score of that
    item. *)
Theorem zGeneralRange_returns_only_stored_members_within_bounds
    fuel key start stop offset count forward attribute st st' m err :
  script st = [] ->
  _zGeneralRange lexToFloat fuel key start stop offset count forward attribute st
  = (st', Ret (m, err)) ->
  forall name v,
    m !! name = Some v ->
    exists it,
      In it (items st)
      /\ selects key (range_condition attribute start stop) (index_for attribute) it = true
      /\ item_sk it = name
      /\ v = decode lexToFloat (snd (parseItem it)).
Proof. exact (_zGeneralRange_sound fuel key start stop offset count forward attribute
               st st' m err). Qed.

(** X10: the names that a range by name returns lie between its two bounds
    in byte order. *)
Theorem ZRANGEBYLEX_names_lie_between_the_bounds
    fuel key min max offset count st st' m err name :
  script st = [] ->
  min <> "" -> max <> "" ->
  ZRANGEBYLEX lexToFloat fuel key min max offset count st = (st', Ret (m, err)) ->
  is_Some (m !! name) ->
  String.leb min name = true /\ String.leb name max = true.
Proof.
  intros Hq Hmin Hmax Hrun [v Hlook].
  destruct (_zGeneralRange_sound
              fuel key min max offset count true sk st st' m err Hq Hrun name v Hlook)
    as (it & _ & Hsel & <- & _).
  unfold selects, range_condition in Hsel.
  apply String.eqb_neq in Hmin, Hmax. rewrite Hmin, Hmax in Hsel. simpl in Hsel.
  apply andb_true_iff in Hsel. destruct Hsel as [_ Hsel].
  apply andb_true_iff in Hsel. exact Hsel.
Qed.
End ScanFacts.

(** ** The budget of a scan *)

Lemma Query_page_bound q st st' out l :
  q_limit q = Some l ->
  Query q st = (st', Ret (inl out)) ->
  1 <= l /\ (length (Items out) <= Z.to_nat l)%nat.
Proof.
  intros Hl. unfold Query, Send.
  assert (Hserve : forall s out',
            serve_query q s = inl out' ->
            1 <= l /\ (length (Items out') <= Z.to_nat l)%nat).
  { intros s out' H. unfold serve_query in H. rewrite Hl in H.
    destruct (l <? 1) eqn:E; [discriminate|]. apply Z.ltb_ge in E.
    injection H as <-. split; [exact E|]. cbn [Items].
    destruct (q_select_count q); [simpl; lia|].
    rewrite length_firstn. lia. }
  destruct (script st) as [|[|msg|k m a v] evs]; cbn [serve];
    try (destruct (serve_query q _) as [out'|e] eqn:E; intros H;
         [injection H as _ <-; eapply Hserve; exact E|discriminate]).
  intros H. discriminate.
Qed.

Section BudgetFacts.
Variable lexToFloat : string -> big.Float.
Variables (offset count : Z).
Hypothesis Hoffset : 0 <= offset.
Hypothesis Hsum : count + offset < 2 ^ 63.

Lemma collect_fold_within_budget page : forall s,
  within_budget offset count s ->
  Z.of_nat (length page) <= sc_remaining s + Z.max 0 (offset - sc_index s) ->
  within_budget offset count (List.fold_left (collect lexToFloat offset) page s).
Proof.
  induction page as [|item page IH]; intros s Hs Hlen; [exact Hs|].
  cbn [List.fold_left]. destruct Hs as (Hi & Hr & Hr0 & Hsz).
  cbn [length] in Hlen.
  apply IH.
  - unfold collect. destruct (sc_index s >=? offset) eqn:Hge.
    + apply Z.geb_le in Hge.
      unfold within_budget. cbn [sc_index sc_remaining sc_members].
      rewrite (int64_small (sc_index s + 1)) by (unfold in_int64; lia).
      rewrite (int64_small (sc_remaining s - 1)) by (unfold in_int64; lia).
      repeat split; try lia.
      pose proof (map_size_insert (fst (parseItem item))
                    (decode lexToFloat (snd (parseItem item))) (sc_members s)) as Hins.
      destruct (sc_members s !! fst (parseItem item)); cbn [id] in Hins; rewrite Hins; lia.
    + rewrite Z.geb_leb in Hge. apply Z.leb_gt in Hge.
      unfold within_budget. cbn [sc_index sc_remaining sc_members].
      rewrite (int64_small (sc_index s + 1)) by (unfold in_int64; lia).
      repeat split; lia.
  - unfold collect. destruct (sc_index s >=? offset) eqn:Hge.
    + apply Z.geb_le in Hge. cbn [sc_index sc_remaining].
      rewrite (int64_small (sc_index s + 1)) by (unfold in_int64; lia).
      rewrite (int64_small (sc_remaining s - 1)) by (unfold in_int64; lia).
      lia.
    + rewrite Z.geb_leb in Hge. apply Z.leb_gt in Hge. cbn [sc_index sc_remaining].
      rewrite (int64_small (sc_index s + 1)) by (unfold in_int64; lia).
      lia.
Qed.

Lemma _zGeneralRange_loop_within_budget key start stop forward attribute fuel :
  forall lastKey s st st' m err,
    within_budget offset count s ->
    0 < sc_remaining s ->
    _zGeneralRange_loop lexToFloat fuel key start stop offset forward attribute lastKey s st
    = (st', Ret (m, err)) ->
    Z.of_nat (size m) <= count.
Proof.
  induction fuel as [|fuel IH]; intros lastKey s st st' m err Hs Hpos Hrun;
    cbn [_zGeneralRange_loop] in Hrun; [discriminate|].
  unfold bind in Hrun.
  assert (Hout : Z.of_nat (size (sc_members s)) <= count)
    by (destruct Hs as (? & ? & ? & ?); lia).
  unfold queryLimit in Hrun.
  destruct (sc_remaining s >? 0) eqn:Hgt; [|rewrite Z.gtb_ltb in Hgt; apply Z.ltb_ge in Hgt; lia].
  assert (Hlim : int64 (int64 (sc_remaining s + offset) - sc_index s)
                 = sc_remaining s + offset - sc_index s).
  { destruct Hs as (Hi & Hr & Hr0 & Hsz).
    rewrite (int64_small (sc_remaining s + offset)) by (unfold in_int64; lia).
    apply int64_small. unfold in_int64. lia. }
  rewrite Hlim in Hrun.
  set (q := mkQuery key _ _ forward _ lastKey false) in Hrun.
  destruct (Query q st) as [st1 [[out|e]|p|]] eqn:Hquery; try discriminate.
  - destruct (Query_page_bound q st st1 out _ eq_refl Hquery) as [Hl Hlen].
    remember (List.fold_left (collect lexToFloat offset) (Items out) s) as s1 eqn:Es1.
    assert (Hs1 : within_budget offset count s1)
      by (subst s1; apply collect_fold_within_budget; [exact Hs|lia]).
    assert (Hout1 : Z.of_nat (size (sc_members s1)) <= count)
      by (destruct Hs1 as (? & ? & ? & ?); lia).
    clear Es1.
    destruct (LastEvaluatedKey out) as [k|].
    + destruct (sc_remaining s1 >? 0) eqn:Hgt1.
      * eapply IH; [exact Hs1|apply Z.gtb_lt; exact Hgt1|exact Hrun].
      * injection Hrun as <- <- <-. exact Hout1.
    + injection Hrun as <- <- <-. exact Hout1.
  - injection Hrun as <- <- <-. exact Hout.
Qed.
End BudgetFacts.

(** X11: whatever the store does (pages of any size, failures, writes of
    other clients), a scan with a positive budget never returns more than
    [count] members, not even beside an error. *)
Theorem zGeneralRange_never_exceeds_its_budget
    lexToFloat fuel key start stop offset count forward attribute st st' m err :
  0 <= offset -> 0 < count -> count + offset < 2 ^ 63 ->
  _zGeneralRange lexToFloat fuel key start stop offset count forward attribute st
  = (st', Ret (m, err)) ->
  Z.of_nat (size m) <= count.
Proof.
  intros Hoffset Hcount Hsum Hrun. unfold _zGeneralRange in Hrun.
  refine (_zGeneralRange_loop_within_budget lexToFloat offset count Hoffset Hsum
            key start stop forward attribute fuel None _ st st' m err _ _ Hrun).
  - unfold within_budget. cbn [sc_index sc_remaining sc_members].
    rewrite map_size_empty. lia.
  - exact Hcount.
Qed.

(** ** Ranges by rank and pops *)

Section RankFacts.
Variable floatToLex : big.Float -> string.
Variable lexToFloat : string -> big.Float.

(** X12: with both ranks non-negative, on a store that neither fails nor
    interferes and serves the set in one page, a
    range by rank returns the entries from rank [start] on: [stop - start + 1]
    of them when [start <= stop], and all of them to the end of the set when
    [stop < start]. *)
Theorem zrange_of_non_negative_ranks fuel key start stop forward st :
  script st = [] ->
  0 <= start < 2 ^ 62 -> 0 <= stop < 2 ^ 62 ->
  (length (items st) <= Pos.to_nat (pageCap st))%nat ->
  Z.of_nat (length (items st)) < 2 ^ 63 ->
  snd (_zrange floatToLex lexToFloat (S fuel) key start stop forward st)
  = Ret (scores_of lexToFloat
           (let ranked := List.skipn (Z.to_nat start)
                            (entries key KeyOnly (LSI sk2) forward (items st)) in
            if start <=? stop
            then List.firstn (Z.to_nat (stop - start + 1)) ranked
            else ranked) ∅, None).
Proof.
  intros Hq Hstart Hstop Hcap Hsize. unfold _zrange.
  replace (start <? 0) with false by (symmetry; apply Z.ltb_ge; lia).
  replace (stop <? 0) with false by (symmetry; apply Z.ltb_ge; lia).
  rewrite !andb_false_r. cbn [andb].
  rewrite (int64_small (stop - start)) by (unfold in_int64; lia).
  rewrite (int64_small (stop - start + 1)) by (unfold in_int64; lia).
  rewrite _zGeneralRange_single_page;
    [|assumption|lia|unfold in_int64; lia|lia|assumption|assumption].
  cbn [snd]. unfold window. cbn [range_condition String.eqb negb andb index_for attr_eqb].
  destruct (start <=? stop) eqn:Hle.
  - apply Z.leb_le in Hle.
    replace (stop - start + 1 >? 0) with true by (symmetry; apply Z.gtb_lt; lia).
    reflexivity.
  - apply Z.leb_gt in Hle.
    replace (stop - start + 1 >? 0) with false
      by (symmetry; rewrite Z.gtb_ltb; apply Z.ltb_ge; lia).
    reflexivity.
Qed.

Lemma scores_of_names l : forall m k,
  is_Some (scores_of lexToFloat l m !! k) ->
  is_Some (m !! k) \/ exists it, In it l /\ item_sk it = k.
Proof.
  induction l as [|item l IH]; intros m k Hk; [left; exact Hk|].
  rewrite scores_of_cons in Hk. apply IH in Hk. destruct Hk as [Hk|(it & Hin & Hsk)].
  - destruct (decide (fst (parseItem item) = k)) as [E|E].
    + right. exists item. split; [left; reflexivity|exact E].
    + rewrite lookup_insert_ne in Hk by exact E. left. exact Hk.
  - right. exists it. split; [right; exact Hin|exact Hsk].
Qed.

Variable visit : gmap string float64 -> list string.
Hypothesis visit_keys : forall (m : gmap string float64) k, In k (visit m) <-> is_Some (m !! k).

(** X13: on a store that neither fails nor interferes and serves the set in
    one page, a pop returns the first [count]
    members in the order of the scores (the last ones for ZPOPMAX; all of
    them when [count] is not positive), and removes exactly the members it
    returns: none of them is stored afterwards, and every other item is as it
    was. *)
Theorem zpop_removes_exactly_what_it_returns fuel key count forward st :
  script st = [] ->
  unique_keys (items st) ->
  in_int64 count ->
  (length (items st) <= Pos.to_nat (pageCap st))%nat ->
  Z.of_nat (length (items st)) < 2 ^ 63 ->
  exists st',
    let popped := scores_of lexToFloat
                    (window 0 count (entries key KeyOnly (LSI sk2) forward (items st))) ∅ in
    _zpop lexToFloat visit (S fuel) key count forward st = (st', Ret (popped, None))
    /\ (forall member, is_Some (popped !! member) ->
          find_item key member (items st') = None)
    /\ (forall key' member',
          key <> key' \/ popped !! member' = None ->
          find_item key' member' (items st') = find_item key' member' (items st)).
Proof.
  intros Hq Hu Hcount Hcap Hsize. unfold _zpop, bind.
  rewrite _zGeneralRange_single_page;
    [|assumption|lia|assumption|unfold in_int64 in Hcount; lia|assumption|assumption].
  cbn [range_condition String.eqb negb andb index_for attr_eqb].
  set (popped := scores_of lexToFloat _ ∅).
  set (st1 := logged _ st).
  destruct (ZREM_loop_quiet key (visit popped) 0 st1) as (st' & Hrun & _ & Hi & _);
    [reflexivity|subst st1; exact Hu|unfold in_int64; lia|].
  unfold ZREM. rewrite Hrun. cbn [snd]. exists st'. split; [reflexivity|].
  rewrite Hi. subst st1. cbn [items logged]. split.
  - intros member Hin. apply find_without. apply visit_keys. exact Hin.
  - intros key' member' Hne. apply find_without_other.
    destruct Hne as [Hne|Hne]; [left; exact Hne|right].
    intros Hin. apply visit_keys in Hin. rewrite Hne in Hin. destruct Hin; discriminate.
Qed.
End RankFacts.

(** ** Ranks from both ends *)

Lemma length_filter_le_ge key L tbl :
  (length (List.filter (selects key (range_condition sk2 "" L) (LSI sk2)) tbl)
   + length (List.filter (selects key (range_condition sk2 L "") (LSI sk2)) tbl)
   = length (List.filter (selects key KeyOnly (LSI sk2)) tbl)
     + length (List.filter (selects key (range_condition sk2 L L) (LSI sk2)) tbl))%nat.
Proof.
  unfold range_condition. cbn [String.eqb negb andb].
  destruct (String.eqb L "") eqn:HL; cbn [negb andb]; [lia|].
  induction tbl as [|it tbl IH]; [reflexivity|].
  cbn [List.filter].
  destruct (selects key (AtMost sk2 (AV_S L)) (LSI sk2) it) eqn:E1,
           (selects key (AtLeast sk2 (AV_S L)) (LSI sk2) it) eqn:E2,
           (selects key KeyOnly (LSI sk2) it) eqn:E3,
           (selects key (Between sk2 (AV_S L) (AV_S L)) (LSI sk2) it) eqn:E4;
    cbn [length]; try lia; exfalso;
    unfold selects in E1, E2, E3, E4;
    cbn [index_attr item_attr satisfies] in E1, E2, E3, E4;
    destruct (String.eqb (item_pk it) key); cbn [andb] in E1, E2, E3, E4;
    try discriminate;
    destruct (item_sk2 it) as [v|];
    cbn [option_map has_value andb AV_leb] in E1, E2, E3, E4; try discriminate;
    destruct (String.leb_total v L) as [H|H]; rewrite H in *;
    rewrite ?andb_true_r, ?andb_false_r in *; cbn [andb] in *; congruence.
Qed.

Section RankSum.
Variable floatToLex : big.Float -> string.
Variable lexToFloat : string -> big.Float.

Lemma _zrank_quiet fuel key member forward st s :
  script st = [] ->
  (length (items st) < fuel)%nat ->
  find_item key member (items st) ≫= item_sk2 = Some s ->
  exists b st',
    big.NewFloat (decode lexToFloat s) = Ret b
    /\ _zrank floatToLex lexToFloat fuel key member forward st =
         (st', Ret (int64 (Z.of_nat (length
                      (List.filter
                         (selects key
                            (if forward
                             then range_condition sk2 "" (floatToLex b)
                             else range_condition sk2 (floatToLex b) "")
                            (LSI sk2)) (items st))) - 1), true, None)).
Proof.
  intros Hq Hfuel Hs.
  pose proof (ZSCORE_quiet lexToFloat key member st Hq) as Hread. rewrite Hs in Hread.
  unfold _zrank, bind at 1. rewrite Hread. cbn [has_value orb negb].
  destruct (encode_decode floatToLex lexToFloat s) as (b & Hb & Henc).
  exists b. unfold bind at 1. rewrite Henc. unfold bind.
  set (st1 := logged (GetItemRequest key member [sk2]) st).
  set (c := if forward then range_condition sk2 "" (floatToLex b)
            else range_condition sk2 (floatToLex b) "").
  destruct (_zGeneralCount_loop_quiet key c (index_for sk2) fuel None 0 st1)
    as (st' & Hrun & _);
    [reflexivity
    |simpl; pose proof (length_entries_le key c (index_for sk2) true (items st)); lia|].
  exists st'. split; [exact Hb|].
  replace (if forward then _zGeneralCount fuel key "" (floatToLex b) sk2
           else _zGeneralCount fuel key (floatToLex b) "" sk2)
    with (_zGeneralCount_loop fuel key c (index_for sk2) None 0)
    by (subst c; destruct forward; reflexivity).
  rewrite Hrun. simpl. rewrite length_entries, Nat.sub_0_r, int64_sub_l. reflexivity.
Qed.

(** X14: for a stored member, on a store that neither fails nor interferes,
    the rank and the reverse rank add up to the number of members plus the
    number of members that share its encoded score, minus two: the members of
    equal score all have the same rank, the highest of their places, from
    either end. *)
Theorem ZRANK_plus_ZREVRANK_counts_ties_twice fuel key member st s :
  script st = [] ->
  (length (items st) < fuel)%nat ->
  Z.of_nat (length (items st)) < 2 ^ 62 ->
  find_item key member (items st) ≫= item_sk2 = Some s ->
  exists b rank revrank,
    big.NewFloat (decode lexToFloat s) = Ret b
    /\ snd (ZRANK floatToLex lexToFloat fuel key member st) = Ret (rank, true, None)
    /\ snd (ZREVRANK floatToLex lexToFloat fuel key member st) = Ret (revrank, true, None)
    /\ rank + revrank
       = Z.of_nat (length (List.filter (selects key KeyOnly (LSI sk2)) (items st)))
         + Z.of_nat (length (List.filter
                               (selects key
                                  (range_condition sk2 (floatToLex b) (floatToLex b))
                                  (LSI sk2)) (items st)))
         - 2.
Proof.
  intros Hq Hfuel Hsize Hs.
  destruct (_zrank_quiet fuel key member true st s Hq Hfuel Hs) as (b & st1 & Hb & Hrank).
  destruct (_zrank_quiet fuel key member false st s Hq Hfuel Hs) as (b' & st2 & Hb' & Hrev).
  assert (b' = b) by congruence. subst b'.
  exists b. eexists. eexists. split; [exact Hb|].
  unfold ZRANK, ZREVRANK. rewrite Hrank, Hrev. cbn [snd].
  split; [reflexivity|]. split; [reflexivity|].
  pose proof (length_filter_le_ge key (floatToLex b) (items st)) as Hsum.
  pose proof (filter_length_le (selects key (range_condition sk2 "" (floatToLex b)) (LSI sk2))
                (items st)) as H1.
  pose proof (filter_length_le (selects key (range_condition sk2 (floatToLex b) "") (LSI sk2))
                (items st)) as H2.
  rewrite !int64_small by (unfold in_int64; lia).
  lia.
Qed.
End RankSum.

(** ** Positions *)

Lemma project_all_nonempty it : (0 <? length (project [] (Some it)))%nat = true.
Proof. unfold project. destruct it as [p s [x|] [g|]]; reflexivity. Qed.

Lemma NumberValue_N_project_all it :
  NumberValue_N (project [] (Some it)) skGeoCell = item_geo it.
Proof. unfold project. destruct it as [p s [x|] [g|]]; reflexivity. Qed.

Lemma find_put_attr_same key member a v tbl :
  find_item key member (put_attr key member a v tbl)
  = Some (set_attr a v (default (mkItem key member None None) (find_item key member tbl))).
Proof.
  induction tbl as [|it tbl IH]; cbn [put_attr find_item List.find default].
  - rewrite same_key_set_attr. unfold same_key. cbn [item_pk item_sk].
    rewrite !String.eqb_refl. reflexivity.
  - destruct (same_key key member it) eqn:E; cbn [List.find].
    + rewrite same_key_set_attr, E. reflexivity.
    + rewrite E. exact IH.
Qed.

Section PositionFacts.
Variable s2_CellIDFromLatLng : Location -> Z.
Variable s2_LatLng : Z -> Location.
Variable s2_Distance : Location -> Location -> float64.
Variable geohash_Encode : float64 -> float64 -> string.
Variable key : string.

Lemma GEOPOS_loop_quiet members : forall locations st,
  script st = [] ->
  exists st' locations',
    GEOPOS_loop s2_LatLng key members locations st = (st', Ret (locations', None))
    /\ after st st'
    /\ forall member,
         locations' !! member
         = match (if in_dec string_dec member members
                  then find_item key member (items st) else None) with
           | Some it => Some (fromCellIDString s2_LatLng (item_geo it))
           | None => locations !! member
           end.
Proof.
  induction members as [|m0 members IH]; intros locations st Hq.
  - exists st, locations. split; [reflexivity|]. split; [|reflexivity].
    repeat split; [exact Hq|]. exists []. rewrite app_nil_r. reflexivity.
  - cbn [GEOPOS_loop]. unfold bind. rewrite GetItem_quiet by exact Hq.
    set (st1 := logged (GetItemRequest key m0 []) st).
    set (locations1 := if (0 <? length (project [] (find_item key m0 (items st))))%nat
                       then _ else locations).
    destruct (IH locations1 st1 eq_refl) as (st' & locations' & Hrun & Hafter & Hlook).
    exists st', locations'. split; [exact Hrun|].
    split; [exact (after_trans _ _ _ (after_logged _ st) Hafter)|].
    intros member. rewrite Hlook. subst st1. cbn [items logged].
    assert (H1 : locations1 !! member
                 = match (if string_dec m0 member then find_item key member (items st)
                          else None) with
                   | Some it => Some (fromCellIDString s2_LatLng (item_geo it))
                   | None => locations !! member
                   end).
    { subst locations1. destruct (string_dec m0 member) as [<-|Hne].
      - destruct (find_item key m0 (items st)) as [it|].
        + rewrite project_all_nonempty, NumberValue_N_project_all.
          apply lookup_insert_eq.
        + reflexivity.
      - destruct (0 <? _)%nat; [rewrite lookup_insert_ne by exact Hne|]; reflexivity. }
    destruct (in_dec string_dec member members) as [Hin|Hin];
      destruct (in_dec string_dec member (m0 :: members)) as [Hin'|Hin'];
      try (exfalso; apply Hin'; right; exact Hin).
    + destruct (find_item key member (items st)); [reflexivity|].
      rewrite H1. destruct (string_dec m0 member); reflexivity.
    + rewrite H1. destruct Hin' as [->|Hin']; [|contradiction].
      destruct (string_dec member member); [reflexivity|contradiction].
    + rewrite H1. destruct (string_dec m0 member) as [->|]; [|reflexivity].
      exfalso. apply Hin'. left. reflexivity.
Qed.

(** X15: on a store that neither fails nor interferes, the positions of
    [members] hold exactly the members among them that are stored under the
    key, each with the centre of its stored cell (of cell 0 for an item that
    has no cell, such as a member of a sorted set); no error is returned and
    the table is not changed. *)
Theorem GEOPOS_returns_the_stored_members_among_those_asked members st :
  script st = [] ->
  exists st' locations,
    GEOPOS s2_LatLng key members st = (st', Ret (locations, None))
    /\ items st' = items st
    /\ forall member,
         locations !! member
         = if in_dec string_dec member members
           then option_map (fun it => fromCellIDString s2_LatLng (item_geo it))
                  (find_item key member (items st))
           else None.
Proof.
  intros Hq.
  destruct (GEOPOS_loop_quiet members ∅ st Hq) as (st' & locations & Hrun & Hafter & Hlook).
  exists st', locations. split; [exact Hrun|]. split; [apply Hafter|].
  intros member. rewrite Hlook, lookup_empty.
  destruct (in_dec string_dec member members); [|reflexivity].
  destruct (find_item key member (items st)); reflexivity.
Qed.

Lemma GEOADD_loop_quiet members : forall n st,
  script st = [] ->
  List.NoDup (List.map fst members) ->
  exists st',
    GEOADD_loop s2_CellIDFromLatLng key members n st = (st', Ret (n, None))
    /\ script st' = []
    /\ (forall member location,
          In (member, location) members ->
          find_item key member (items st') ≫= item_geo
          = Some (s2_CellIDFromLatLng location))
    /\ (forall key' member',
          key <> key' \/ ~ In member' (List.map fst members) ->
          find_item key' member' (items st') = find_item key' member' (items st))
    /\ (forall key' member',
          find_item key' member' (items st') ≫= item_sk2
          = find_item key' member' (items st) ≫= item_sk2).
Proof.
  clear s2_LatLng s2_Distance geohash_Encode.
  induction members as [|[m0 l0] members IH]; intros n st Hq Hnd.
  - exists st. split; [reflexivity|]. split; [exact Hq|].
    split; [intros ? ? []|]. split; reflexivity.
  - cbn [GEOADD_loop]. unfold bind. rewrite UpdateItem_quiet by exact Hq.
    cbn [List.forallb]. cbn [List.map fst] in Hnd. apply List.NoDup_cons_iff in Hnd.
    destruct Hnd as [Hfresh Hnd].
    set (st1 := with_items _ _).
    destruct (IH n st1 eq_refl Hnd) as (st' & Hrun & Hq' & Hgeo & Hother & Hscore).
    exists st'. split; [exact Hrun|]. split; [exact Hq'|].
    subst st1. cbn [items with_items logged] in *.
    split; [|split].
    + intros member location [E|Hin].
      * injection E as <- <-. rewrite Hother by (right; exact Hfresh).
        rewrite find_put_attr_same. reflexivity.
      * apply Hgeo. exact Hin.
    + intros key' member' Hne. cbn [List.map fst In] in Hne.
      rewrite Hother by tauto.
      apply find_put_attr_other. destruct Hne as [Hne|Hne]; [left; exact Hne|].
      right. intros <-. apply Hne. left. reflexivity.
    + intros key' member'. rewrite Hscore.
      destruct (string_dec key key') as [<-|Hk];
        [destruct (string_dec m0 member') as [<-|Hm]|].
      * rewrite find_put_attr_same.
        destruct (find_item key m0 (items st)); reflexivity.
      * rewrite find_put_attr_other by (right; exact Hm). reflexivity.
      * rewrite find_put_attr_other by (left; exact Hk). reflexivity.
Qed.

(** X16: on a store that neither fails nor interferes, after the positions
    of [members] have been added, the positions read back for them are, for
    each, the centre of the cell of the position that was given (not the
    position itself); the add returns the count 0 and no error, leaves every
    other item as it was, and changes no score. *)
Theorem GEOADD_then_GEOPOS_returns_the_cell_centres members st :
  script st = [] ->
  List.NoDup (List.map fst members) ->
  exists st1 st2 locations,
    GEOADD s2_CellIDFromLatLng key members st = (st1, Ret (0, None))
    /\ GEOPOS s2_LatLng key (List.map fst members) st1 = (st2, Ret (locations, None))
    /\ (forall member location,
          In (member, location) members ->
          locations !! member
          = Some (fromCellIDString s2_LatLng (Some (s2_CellIDFromLatLng location))))
    /\ (forall key' member',
          key <> key' \/ ~ In member' (List.map fst members) ->
          find_item key' member' (items st1) = find_item key' member' (items st))
    /\ (forall key' member',
          find_item key' member' (items st1) ≫= item_sk2
          = find_item key' member' (items st) ≫= item_sk2).
Proof.
  clear s2_Distance geohash_Encode.
  intros Hq Hnd.
  destruct (GEOADD_loop_quiet members 0 st Hq Hnd) as (st1 & Hadd & Hq1 & Hgeo & Hother & Hscore).
  destruct (GEOPOS_loop_quiet (List.map fst members) ∅ st1 Hq1)
    as (st2 & locations & Hpos & _ & Hlook).
  exists st1, st2, locations. split; [exact Hadd|]. split; [exact Hpos|].
  split; [|split; assumption].
  intros member location Hin. rewrite Hlook.
  destruct (in_dec string_dec member (List.map fst members)) as [_|Hout];
    [|exfalso; apply Hout; apply (in_map fst _ _ Hin)].
  specialize (Hgeo member location Hin).
  destruct (find_item key member (items st1)) as [it|]; [|discriminate].
  cbn in Hgeo. rewrite Hgeo. reflexivity.
Qed.

Lemma GEOPOS_loop_names members : forall locations st,
  exists st' locations' err,
    GEOPOS_loop s2_LatLng key members locations st = (st', Ret (locations', err))
    /\ forall member, is_Some (locations' !! member) ->
         is_Some (locations !! member) \/ In member members.
Proof.
  induction members as [|m0 members IH]; intros locations st.
  - exists st, locations, None. split; [reflexivity|]. intros member H. left. exact H.
  - cbn [GEOPOS_loop]. unfold bind.
    destruct (GetItem key m0 [] st) as [st1 out] eqn:Hget.
    assert (Hret : exists item err, out = Ret (item, err)).
    { unfold GetItem in Hget. destruct (Send _ st) as [st0 [| | | ]];
        injection Hget as _ <-; eauto. }
    destruct Hret as (item & [e|] & ->).
    + exists st1, locations, (Some e). split; [reflexivity|]. intros member H. left. exact H.
    + set (locations1 := if (0 <? length item)%nat then _ else locations).
      destruct (IH locations1 st1) as (st' & locations' & err & Hrun & Hnames).
      exists st', locations', err. split; [exact Hrun|].
      intros member H. apply Hnames in H. destruct H as [H|H]; [|right; right; exact H].
      subst locations1. destruct (0 <? length item)%nat; [|left; exact H].
      destruct (decide (m0 = member)) as [->|Hne]; [right; left; reflexivity|].
      rewrite lookup_insert_ne in H by exact Hne. left. exact H.
Qed.

(** X17: the distance of a member to itself is never found, whatever the
    store holds or does: the two lookups fill one entry of the map of
    positions, and fewer than two entries count as a miss. *)
Theorem GEODIST_of_a_member_to_itself_is_never_found member unit st :
  exists st' err,
    GEODIST s2_LatLng s2_Distance key member member unit st
    = (st', Ret (f64_zero, false, err)).
Proof.
  clear s2_CellIDFromLatLng geohash_Encode.
  unfold GEODIST, bind, GEOPOS.
  destruct (GEOPOS_loop_names [member; member] ∅ st)
    as (st' & locations & err & Hrun & Hnames).
  rewrite Hrun. exists st', err.
  assert (Hsize : (size locations <? 2)%nat = true).
  { apply Nat.ltb_lt.
    destruct (locations !! member) as [x|] eqn:Hm.
    - assert (locations = {[member := x]}) as ->.
      { apply map_eq. intros k. destruct (decide (member = k)) as [<-|Hne].
        - rewrite lookup_singleton_eq. exact Hm.
        - rewrite lookup_singleton_ne by exact Hne.
          destruct (locations !! k) eqn:Hk; [|reflexivity].
          destruct (Hnames k) as [H|H]; [eauto| |].
          + rewrite lookup_empty in H. destruct H; discriminate.
          + simpl in H. intuition congruence. }
      rewrite map_size_singleton. lia.
    - assert (locations = ∅) as ->.
      { apply map_eq. intros k. rewrite lookup_empty.
        destruct (locations !! k) eqn:Hk; [|reflexivity].
        destruct (Hnames k) as [H|H]; [eauto| |].
        + rewrite lookup_empty in H. destruct H; discriminate.
        + simpl in H. destruct H as [<-|[<-|[]]]; congruence. }
      rewrite map_size_empty. lia. }
  rewrite Hsize, orb_true_r. reflexivity.
Qed.

(** X18: on a store that neither fails nor interferes, the distance between
    two different members is found exactly when both are stored under the
    key, and is then the distance between the centres of their cells in the
    unit asked for; otherwise the call returns 0, not found, and no error. *)
Theorem GEODIST_is_found_when_both_members_are_stored member1 member2 unit st :
  script st = [] ->
  member1 <> member2 ->
  snd (GEODIST s2_LatLng s2_Distance key member1 member2 unit st)
  = Ret (match find_item key member1 (items st), find_item key member2 (items st) with
         | Some it1, Some it2 =>
             (DistanceTo s2_Distance (fromCellIDString s2_LatLng (item_geo it1))
                (fromCellIDString s2_LatLng (item_geo it2)) unit, true, None)
         | _, _ => (f64_zero, false, None)
         end).
Proof.
  clear s2_CellIDFromLatLng geohash_Encode.
  intros Hq Hne. unfold GEODIST, bind, GEOPOS.
  destruct (GEOPOS_loop_quiet [member1; member2] ∅ st Hq)
    as (st' & locations & Hrun & _ & Hlook).
  rewrite Hrun. cbn [has_value orb].
  assert (H1 := Hlook member1). assert (H2 := Hlook member2).
  destruct (in_dec string_dec member1 [member1; member2]) as [_|Hout];
    [|exfalso; apply Hout; left; reflexivity].
  destruct (in_dec string_dec member2 [member1; member2]) as [_|Hout];
    [|exfalso; apply Hout; right; left; reflexivity].
  rewrite lookup_empty in H1, H2.
  assert (Hrest : forall k, k <> member1 -> k <> member2 -> locations !! k = None).
  { intros k Hk1 Hk2. rewrite Hlook.
    destruct (in_dec string_dec k [member1; member2]) as [Hin|_];
      [simpl in Hin; intuition congruence|apply lookup_empty]. }
  destruct (find_item key member1 (items st)) as [it1|],
           (find_item key member2 (items st)) as [it2|].
  - assert (locations = <[member1 := fromCellIDString s2_LatLng (item_geo it1)]>
                          {[member2 := fromCellIDString s2_LatLng (item_geo it2)]}) as Hmap.
    { apply map_eq. intros k. destruct (decide (member1 = k)) as [<-|Hk1].
      - rewrite lookup_insert_eq. exact H1.
      - rewrite lookup_insert_ne by exact Hk1. destruct (decide (member2 = k)) as [<-|Hk2].
        + rewrite lookup_singleton_eq. exact H2.
        + rewrite lookup_singleton_ne by exact Hk2. apply Hrest; congruence. }
    assert (Hsize : size locations = 2%nat).
    { rewrite Hmap, map_size_insert_None, map_size_singleton; [reflexivity|].
      apply lookup_singleton_ne. congruence. }
    rewrite Hsize, H1, H2. reflexivity.
  - assert (locations = {[member1 := fromCellIDString s2_LatLng (item_geo it1)]}) as ->.
    { apply map_eq. intros k. destruct (decide (member1 = k)) as [<-|Hk1].
      - rewrite lookup_singleton_eq. exact H1.
      - rewrite lookup_singleton_ne by exact Hk1. destruct (decide (member2 = k)) as [<-|Hk2].
        + exact H2.
        + apply Hrest; congruence. }
    rewrite map_size_singleton. reflexivity.
  - assert (locations = {[member2 := fromCellIDString s2_LatLng (item_geo it2)]}) as ->.
    { apply map_eq. intros k. destruct (decide (member2 = k)) as [<-|Hk2].
      - rewrite lookup_singleton_eq. exact H2.
      - rewrite lookup_singleton_ne by exact Hk2. destruct (decide (member1 = k)) as [<-|Hk1].
        + exact H1.
        + apply Hrest; congruence. }
    rewrite map_size_singleton. reflexivity.
  - assert (locations = ∅) as ->.
    { apply map_eq. intros k. rewrite lookup_empty.
      destruct (decide (member1 = k)) as [<-|Hk1]; [exact H1|].
      destruct (decide (member2 = k)) as [<-|Hk2]; [exact H2|].
      apply Hrest; congruence. }
    rewrite map_size_empty. reflexivity.
Qed.

(** X19: on a store that neither fails nor interferes, the hashes come one
    per member asked, in the order asked: the hash of the centre of the
    stored cell for a stored member, the empty string for a member that is
    not stored. *)
Theorem GEOHASH_answers_every_member_in_order members st :
  script st = [] ->
  snd (GEOHASH s2_LatLng geohash_Encode key members st)
  = Ret (List.map (fun member =>
                     match find_item key member (items st) with
                     | Some it => Geohash geohash_Encode
                                    (fromCellIDString s2_LatLng (item_geo it))
                     | None => ""
                     end) members, None).
Proof.
  intros Hq. unfold GEOHASH, bind, GEOPOS.
  destruct (GEOPOS_loop_quiet members ∅ st Hq) as (st' & locations & Hrun & _ & Hlook).
  rewrite Hrun. cbn [snd ret]. do 2 f_equal. apply List.map_ext_in.
  intros member Hin. rewrite Hlook.
  destruct (in_dec string_dec member members) as [_|Hout]; [|contradiction].
  destruct (find_item key member (items st)); [reflexivity|].
  rewrite lookup_empty. reflexivity.
Qed.
End PositionFacts.

(** ** The budget of a search *)

Section SearchBudget.
Variable s2_LatLng : Z -> Location.
Variable s2_Distance : Location -> Location -> float64.
Variable s2_CellUnionBound : Location -> float64 -> list Z.
Variable s2_RangeMin s2_RangeMax : Z -> Z.
Variables (key : string) (center : Location) (radius radiusUnit : float64).

Lemma GEORADIUS_cells_spent fuel cells : forall s st,
  count s <= 0 ->
  GEORADIUS_cells s2_LatLng s2_Distance s2_RangeMin s2_RangeMax fuel key cells
    center radius radiusUnit s st = (st, Ret (positions s, None)).
Proof.
  induction cells as [|cellID cells IH]; intros s st Hs; [reflexivity|].
  cbn [GEORADIUS_cells]. unfold bind.
  assert (Hcell : GEORADIUS_cell s2_LatLng s2_Distance s2_RangeMin s2_RangeMax fuel key
                    cellID center radius radiusUnit None s st = (st, Ret (s, None))).
  { destruct fuel; cbn [GEORADIUS_cell];
      replace (count s >? 0) with false
        by (symmetry; rewrite Z.gtb_ltb; apply Z.ltb_ge; exact Hs); reflexivity. }
  rewrite Hcell. apply IH. exact Hs.
Qed.

(** X20: a search with a count that is not positive sends no request and
    returns no position and no error, whatever the store holds or does. *)
Theorem GEORADIUS_without_a_positive_count_finds_nothing fuel n st :
  n <= 0 ->
  GEORADIUS s2_LatLng s2_Distance s2_CellUnionBound s2_RangeMin s2_RangeMax
    fuel key center radius radiusUnit n st = (st, Ret (∅, None)).
Proof.
  intros Hn. unfold GEORADIUS.
  apply (GEORADIUS_cells_spent fuel _ (mkSearch ∅ n) st). exact Hn.
Qed.

Variable budget : Z.
Hypothesis Hbudget : budget < 2 ^ 63.

(** The positions found and the count left make up the budget at most. *)
Lemma accept_fold_within_budget page : forall s,
  Z.of_nat (length page) <= count s ->
  Z.of_nat (size (positions s)) + count s <= budget ->
  let s' := List.fold_left (accept s2_LatLng s2_Distance center radius radiusUnit) page s in
  0 <= count s' /\ Z.of_nat (size (positions s')) + count s' <= budget.
Proof.
  induction page as [|item page IH]; intros s Hlen Hs; cbn [List.fold_left length] in *.
  - split; [lia|exact Hs].
  - apply IH; unfold accept;
      destruct (f64_le _ radius); cbn [count positions]; try lia;
      rewrite (int64_small (count s - 1)) by (unfold in_int64; lia); try lia.
    pose proof (map_size_insert (item_sk item) (fromCellIDString s2_LatLng (item_geo item))
                  (positions s)) as Hins.
    destruct (positions s !! item_sk item); cbn [id] in Hins; rewrite Hins; lia.
Qed.

Lemma GEORADIUS_cell_within_budget cellID fuel : forall cursor s st st' s' err,
  0 <= count s ->
  Z.of_nat (size (positions s)) + count s <= budget ->
  GEORADIUS_cell s2_LatLng s2_Distance s2_RangeMin s2_RangeMax fuel key cellID
    center radius radiusUnit cursor s st = (st', Ret (s', err)) ->
  0 <= count s' /\ Z.of_nat (size (positions s')) + count s' <= budget.
Proof.
  induction fuel as [|fuel IH]; intros cursor s st st' s' err Hpos Hs Hrun;
    cbn [GEORADIUS_cell] in Hrun;
    destruct (count s >? 0) eqn:Hgt;
    try (injection Hrun as <- <- <-; split; assumption);
    [discriminate|].
  unfold bind in Hrun.
  set (q := mkQuery key _ _ true (Some (count s)) cursor false) in Hrun.
  destruct (Query q st) as [st1 [[out|e]|p|]] eqn:Hquery; try discriminate.
  - destruct (Query_page_bound q st st1 out _ eq_refl Hquery) as [Hl Hlen].
    pose proof (accept_fold_within_budget (Items out) s ltac:(lia) Hs) as Hs1.
    cbv zeta in Hs1.
    destruct (LastEvaluatedKey out) as [k|].
    + eapply IH; [apply Hs1|apply Hs1|exact Hrun].
    + injection Hrun as <- <- <-. exact Hs1.
  - injection Hrun as <- <- <-. split; assumption.
Qed.

Lemma GEORADIUS_cells_within_budget fuel cells : forall s st st' ps err,
  0 <= count s ->
  Z.of_nat (size (positions s)) + count s <= budget ->
  GEORADIUS_cells s2_LatLng s2_Distance s2_RangeMin s2_RangeMax fuel key cells
    center radius radiusUnit s st = (st', Ret (ps, err)) ->
  Z.of_nat (size ps) <= budget.
Proof.
  induction cells as [|cellID cells IH]; intros s st st' ps err Hpos Hs Hrun;
    cbn [GEORADIUS_cells] in Hrun.
  - injection Hrun as <- <- <-. lia.
  - unfold bind in Hrun.
    destruct (GEORADIUS_cell _ _ _ _ fuel key cellID center radius radiusUnit None s st)
      as [st1 [[s1 e]|p|]] eqn:Hcell; try discriminate.
    destruct (GEORADIUS_cell_within_budget cellID fuel None s st st1 s1 e Hpos Hs Hcell)
      as [Hpos1 Hs1].
    destruct e as [e|].
    + injection Hrun as <- <- <-. lia.
    + eapply IH; [exact Hpos1|exact Hs1|exact Hrun].
Qed.
End SearchBudget.

(** X21: whatever the store holds or does, a search never returns more than
    [count] positions, over all the covering cells and all their pages, also
    beside an error. *)
Theorem GEORADIUS_never_returns_more_than_count_positions
    s2_LatLng s2_Distance s2_CellUnionBound s2_RangeMin s2_RangeMax
    fuel key center radius radiusUnit n st st' ps err :
  0 <= n < 2 ^ 63 ->
  GEORADIUS s2_LatLng s2_Distance s2_CellUnionBound s2_RangeMin s2_RangeMax
    fuel key center radius radiusUnit n st = (st', Ret (ps, err)) ->
  Z.of_nat (size ps) <= n.
Proof.
  intros Hn Hrun. unfold GEORADIUS in Hrun.
  refine (GEORADIUS_cells_within_budget s2_LatLng s2_Distance s2_RangeMin s2_RangeMax
            key center radius radiusUnit n _ fuel _ (mkSearch ∅ n) st st' ps err _ _ Hrun);
    cbn [count positions]; rewrite ?map_size_empty; lia.
Qed.

(** ** Ranges by score without a limit *)

Lemma find_item_unique tbl it :
  unique_keys tbl -> In it tbl -> find_item (item_pk it) (item_sk it) tbl = Some it.
Proof.
  induction tbl as [|x tbl IH]; intros Hu Hin; [destruct Hin|].
  destruct Hin as [->|Hin].
  - unfold find_item. cbn [List.find]. unfold same_key. rewrite !String.eqb_refl. reflexivity.
  - unfold find_item. cbn [List.find].
    destruct (same_key (item_pk it) (item_sk it) x) eqn:E.
    + apply same_key_iff in E. destruct E as [Hp Hs].
      pose proof (unique_keys_head x tbl Hu) as Hnone.
      rewrite Hp, Hs, (IH (unique_keys_tail x tbl Hu) Hin) in Hnone. discriminate.
    + apply IH; [eapply unique_keys_tail; exact Hu|exact Hin].
Qed.

Section ExactRange.
Variable floatToLex : big.Float -> string.
Variable lexToFloat : string -> big.Float.

Lemma scores_of_lookup_Some l : forall m k v,
  scores_of lexToFloat l m !! k = Some v ->
  m !! k = Some v
  \/ exists it, In it l /\ item_sk it = k /\ v = decode lexToFloat (snd (parseItem it)).
Proof.
  induction l as [|item l IH]; intros m k v Hk; [left; exact Hk|].
  rewrite scores_of_cons in Hk. apply IH in Hk. destruct Hk as [Hk|(it & Hin & Hsk & Hv)].
  - destruct (decide (fst (parseItem item) = k)) as [E|E].
    + right. exists item. subst k. rewrite lookup_insert_eq in Hk. injection Hk as <-.
      split; [left; reflexivity|]. split; reflexivity.
    + rewrite lookup_insert_ne in Hk by exact E. left. exact Hk.
  - right. exists it. split; [right; exact Hin|]. split; assumption.
Qed.

(** The members collected from the entries of a table of unique keys, looked
    up by name. *)
Lemma scores_of_entries_lookup key c ix forward tbl name :
  unique_keys tbl ->
  scores_of lexToFloat (entries key c ix forward tbl) ∅ !! name
  = match find_item key name tbl with
    | Some it => if selects key c ix it
                 then Some (decode lexToFloat (snd (parseItem it))) else None
    | None => None
    end.
Proof.
  intros Hu.
  destruct (scores_of lexToFloat (entries key c ix forward tbl) ∅ !! name) as [v|] eqn:Hk.
  - apply scores_of_lookup_Some in Hk. destruct Hk as [Hk|(it & Hin & Hsk & Hv)];
      [rewrite lookup_empty in Hk; discriminate|].
    apply In_entries in Hin. destruct Hin as [Hin Hsel].
    assert (Hpk : item_pk it = key).
    { unfold selects in Hsel. apply andb_true_iff in Hsel. destruct Hsel as [Hsel _].
      apply andb_true_iff in Hsel. destruct Hsel as [Hpk _].
      apply String.eqb_eq. exact Hpk. }
    pose proof (find_item_unique tbl it Hu Hin) as Hfind.
    rewrite Hpk, Hsk in Hfind. rewrite Hfind, Hsel, Hv. reflexivity.
  - destruct (find_item key name tbl) as [it|] eqn:Hfind; [|reflexivity].
    destruct (selects key c ix it) eqn:Hsel; [|reflexivity].
    exfalso. unfold find_item in Hfind. apply List.find_some in Hfind.
    destruct Hfind as [Hin Hsame]. apply same_key_iff in Hsame. destruct Hsame as [_ Hsk].
    assert (Hent : In it (entries key c ix forward tbl))
      by (apply In_entries; split; assumption).
    destruct (scores_of_covers lexToFloat _ ∅ it Hent) as [v Hv].
    rewrite Hsk, Hk in Hv. discriminate.
Qed.

(** X22: without offset and limit, on a store that neither fails nor
    interferes and serves the set in one page, the
    range by score returns exactly the stored members whose encoded score
    lies between the encodings of the two bounds, each with its decoded
    score; and the reverse range, which takes the bounds in the other order,
    returns the same map. *)
Theorem ZRANGEBYSCORE_without_limit_is_exact fuel key minScore maxScore lo hi st :
  script st = [] ->
  unique_keys (items st) ->
  (length (items st) <= Pos.to_nat (pageCap st))%nat ->
  Z.of_nat (length (items st)) < 2 ^ 63 ->
  big.NewFloat minScore = Ret lo ->
  big.NewFloat maxScore = Ret hi ->
  exists m,
    snd (ZRANGEBYSCORE floatToLex lexToFloat (S fuel) key minScore maxScore 0 0 st)
    = Ret (m, None)
    /\ snd (ZREVRANGEBYSCORE floatToLex lexToFloat (S fuel) key maxScore minScore 0 0 st)
       = Ret (m, None)
    /\ forall name,
         m !! name
         = match find_item key name (items st) with
           | Some it =>
               if selects key (range_condition sk2 (floatToLex lo) (floatToLex hi))
                    (LSI sk2) it
               then Some (decode lexToFloat (snd (parseItem it))) else None
           | None => None
           end.
Proof.
  intros Hq Hu Hcap Hsize Hlo Hhi.
  exists (scores_of lexToFloat
            (entries key (range_condition sk2 (floatToLex lo) (floatToLex hi)) (LSI sk2)
               true (items st)) ∅).
  unfold ZRANGEBYSCORE, ZREVRANGEBYSCORE, bind.
  rewrite !(encode_ok floatToLex minScore lo st Hlo).
  rewrite !(encode_ok floatToLex maxScore hi st Hhi).
  rewrite !_zGeneralRange_single_page;
    try assumption; try lia; try (unfold in_int64; lia).
  cbn [snd]. unfold window. cbn [Z.gtb Z.compare Z.to_nat]. rewrite !drop_0.
  split; [reflexivity|]. split.
  - do 2 f_equal. apply map_eq. intros name.
    rewrite !scores_of_entries_lookup by exact Hu. reflexivity.
  - intros name. apply scores_of_entries_lookup. exact Hu.
Qed.
End ExactRange.

(** ** The further properties on the examples *)

Lemma in_order_keys (m : gmap string float64) k :
  In k (in_order m) <-> is_Some (m !! k).
Proof.
  unfold in_order. rewrite <- list_elem_of_In, list_elem_of_fmap. split.
  - intros ([k' v] & -> & Hin). apply elem_of_map_to_list in Hin. eauto.
  - intros [v Hv]. exists (k, v). split; [reflexivity|].
    apply elem_of_map_to_list. exact Hv.
Qed.

Lemma unique_keys_five cap : unique_keys (items (five cap)).
Proof.
  unfold unique_keys. cbn [five items List.map scored item_pk item_sk].
  repeat constructor; simpl; intuition discriminate.
Qed.

(** X1 at a and b, added with the scores 1 and 2 to an empty store: the score
    of b is then 2. *)
Lemma ZADD_stores_every_score_witness :
  exists st',
    ZADD RefCodec.floatToLex "z" [("a", f64_of_Z 1); ("b", f64_of_Z 2)] [] (empty_store 100)
    = (st', Ret (2, None))
    /\ snd (ZSCORE RefCodec.lexToFloat "z" "b" st') = Ret (f64_of_Z 2, true, None).
Proof.
  destruct (ZADD_stores_every_score RefCodec.floatToLex RefCodec.lexToFloat "z"
              [("a", f64_of_Z 1); ("b", f64_of_Z 2)] (empty_store 100) eq_refl
              ltac:(repeat constructor; simpl; intuition discriminate)
              ltac:(repeat constructor)) as (st' & Hrun & Hscore & _).
  exists st'. split; [exact Hrun|].
  rewrite (Hscore "b" (f64_of_Z 2) (big_of_Z 2)); [|simpl; tauto|reflexivity].
  vm_compute. reflexivity.
Defined.

(** X2 at m1 of m1 .. m5, added again with the score 9 and [IfNotExists]. *)
Lemma ZADD_IfNotExists_witness :
  find_item "z" "m1"
    (items (fst (ZADD RefCodec.floatToLex "z" [("m1", f64_of_Z 9)] [IfNotExists] (five 100))))
  = Some (scored "z" "m1" 1).
Proof.
  apply (ZADD_IfNotExists_never_changes_a_stored_item RefCodec.floatToLex "z"
           [("m1", f64_of_Z 9)] [IfNotExists] (five 100) "z" "m1" (scored "z" "m1" 1));
    reflexivity.
Defined.

(** X3 at m9, which m1 .. m5 do not hold, added with [IfAlreadyExists]. *)
Lemma ZADD_IfAlreadyExists_witness :
  find_item "z" "m9"
    (items (fst (ZADD RefCodec.floatToLex "z" [("m9", f64_of_Z 9)] [IfAlreadyExists]
                   (five 100))))
  = None.
Proof.
  apply (ZADD_IfAlreadyExists_never_creates_an_item RefCodec.floatToLex "z"
           [("m9", f64_of_Z 9)] [IfAlreadyExists] (five 100) "z" "m9");
    reflexivity.
Defined.

(** X4 at the new member a followed by the stored member m1. *)
Lemma ZADD_condition_failure_witness :
  exists st' n,
    ZADD RefCodec.floatToLex "z" ([("a", f64_of_Z 7)] ++ [("m1", f64_of_Z 9)])
      [IfNotExists] (five 100)
    = (st', Ret (n, Some ConditionalCheckFailedException)).
Proof.
  apply (ZADD_returns_the_condition_failure_of_the_last_member RefCodec.floatToLex "z"
           [IfNotExists] [("a", f64_of_Z 7)] "m1" (f64_of_Z 9) (scored "z" "m1" 1)
           (five 100));
    [reflexivity|reflexivity|repeat constructor|reflexivity].
Defined.

(** X5 at m1 of m1 .. m5, added again with its score 1. *)
Lemma ZADD_of_the_stored_score_witness :
  exists st',
    ZADD RefCodec.floatToLex "z" [("m1", f64_of_Z 1)] [] (five 100) = (st', Ret (1, None))
    /\ items st' = items (five 100).
Proof.
  apply (ZADD_of_the_stored_score_changes_nothing RefCodec.floatToLex "z"
           "m1" (f64_of_Z 1) (big_of_Z 1) (scored "z" "m1" 1) (five 100));
    reflexivity.
Defined.

(** X6 at m2, a member that is not stored, and m2 again: one item is removed
    of five. *)
Lemma ZREM_witness :
  exists st',
    ZREM "z" ["m2"; "nobody"; "m2"] (five 100)
    = (st', Ret (int64 (Z.of_nat (length (items (five 100)) - length (items st'))), None))
    /\ find_item "z" "m2" (items st') = None
    /\ find_item "z" "m3" (items st') = Some (scored "z" "m3" 3).
Proof.
  destruct (ZREM_counts_what_it_removes "z" ["m2"; "nobody"; "m2"] (five 100) eq_refl
              (unique_keys_five 100)) as (st' & Hrun & Hgone & Hkept).
  exists st'. split; [exact Hrun|]. split.
  - apply Hgone. simpl. tauto.
  - rewrite Hkept; [reflexivity|]. right. simpl. intuition discriminate.
Defined.

(** X7 at the names m2 .. m4 of m1 .. m5, counted over pages of two entries. *)
Lemma ZLEXCOUNT_witness :
  exists st', ZLEXCOUNT 6 "z" "m2" "m4" (five 2) = (st', Ret (3, None)).
Proof.
  destruct (ZLEXCOUNT_is_exact_over_pages 6 "z" "m2" "m4" (five 2) eq_refl
              ltac:(vm_compute; lia)) as (st' & Hrun).
  exists st'. rewrite Hrun. vm_compute. reflexivity.
Defined.

(** X8 at the scores 2 .. 4 of m1 .. m5, counted over pages of two entries. *)
Lemma ZCOUNT_witness :
  exists st',
    ZCOUNT RefCodec.floatToLex 6 "z" (f64_of_Z 2) (f64_of_Z 4) (five 2)
    = (st', Ret (3, None)).
Proof.
  destruct (ZCOUNT_is_exact_over_pages RefCodec.floatToLex 6 "z" (f64_of_Z 2) (f64_of_Z 4)
              (big_of_Z 2) (big_of_Z 4) (five 2) eq_refl ltac:(vm_compute; lia)
              eq_refl eq_refl) as (st' & Hrun).
  exists st'. rewrite Hrun. vm_compute. reflexivity.
Defined.

(** X9 at the scan between the encodings of 2 and 4 of m1 .. m5, in pages of
    two entries: m3, which it returns with the score 3, is stored with it. *)
Lemma zGeneralRange_returns_only_stored_members_witness :
  exists it,
    In it (items (five 2))
    /\ selects "z" (range_condition sk2 "300012" "300014") (index_for sk2) it = true
    /\ item_sk it = "m3"
    /\ f64_of_Z 3 = decode RefCodec.lexToFloat (snd (parseItem it)).
Proof.
  assert (Hrun : _zGeneralRange RefCodec.lexToFloat 6 "z" "300012" "300014" 0 0 true sk2
                   (five 2)
                 = (fst (_zGeneralRange RefCodec.lexToFloat 6 "z" "300012" "300014" 0 0 true
                           sk2 (five 2)),
                    Ret ({[ "m2" := f64_of_Z 2; "m3" := f64_of_Z 3 ]}, None)))
    by (vm_compute; reflexivity).
  apply (zGeneralRange_returns_only_stored_members_within_bounds RefCodec.lexToFloat
           6 "z" "300012" "300014" 0 0 true sk2 (five 2) _ _ _ eq_refl Hrun
           "m3" (f64_of_Z 3)).
  vm_compute. reflexivity.
Defined.

(** X10 at the names m2 .. m4 of m1 .. m5: m3 is returned, and lies between
    the bounds. *)
Lemma ZRANGEBYLEX_witness :
  String.leb "m2" "m3" = true /\ String.leb "m3" "m4" = true.
Proof.
  assert (Hrun : ZRANGEBYLEX RefCodec.lexToFloat 6 "z" "m2" "m4" 0 0 (five 2)
                 = (fst (ZRANGEBYLEX RefCodec.lexToFloat 6 "z" "m2" "m4" 0 0 (five 2)),
                    Ret ({[ "m2" := f64_of_Z 2; "m3" := f64_of_Z 3 ]}, None)))
    by (vm_compute; reflexivity).
  apply (ZRANGEBYLEX_names_lie_between_the_bounds RefCodec.lexToFloat
           6 "z" "m2" "m4" 0 0 (five 2) _ _ _ "m3" eq_refl
           ltac:(discriminate) ltac:(discriminate) Hrun).
  exists (f64_of_Z 3). vm_compute. reflexivity.
Defined.

(** X11 at a scan of m1 .. m5 for three members in pages of two entries: the
    second query is refused, and two members are returned beside the error. *)
Lemma zGeneralRange_budget_witness :
  exists st' m err,
    _zGeneralRange RefCodec.lexToFloat 6 "z" "" "" 0 3 true sk2 (five 2)
    = (st', Ret (m, Some err))
    /\ Z.of_nat (size m) <= 3.
Proof.
  assert (Hrun : _zGeneralRange RefCodec.lexToFloat 6 "z" "" "" 0 3 true sk2 (five 2)
                 = (fst (_zGeneralRange RefCodec.lexToFloat 6 "z" "" "" 0 3 true sk2 (five 2)),
                    Ret ({[ "m1" := f64_of_Z 1; "m2" := f64_of_Z 2 ]},
                         Some (ValidationException "Limit"))))
    by (vm_compute; reflexivity).
  eexists _, _, _. split; [exact Hrun|].
  apply (zGeneralRange_never_exceeds_its_budget RefCodec.lexToFloat
           6 "z" "" "" 0 3 true sk2 (five 2) _ _ _
           ltac:(lia) ltac:(lia) ltac:(lia) Hrun).
Defined.

(** X12 at [ZRANGE 3 1] on m1 .. m5: with the stop before the start, the
    members from rank 3 to the end are returned. *)
Lemma zrange_of_non_negative_ranks_witness :
  snd (zrange 1 "z" 3 1 (five 100))
  = Ret ({[ "m4" := f64_of_Z 4; "m5" := f64_of_Z 5 ]}, None).
Proof.
  unfold ZRANGE.
  rewrite (zrange_of_non_negative_ranks RefCodec.floatToLex RefCodec.lexToFloat
             0 "z" 3 1 true (five 100) eq_refl ltac:(lia) ltac:(lia)
             ltac:(vm_compute; lia) ltac:(vm_compute; reflexivity)).
  vm_compute. reflexivity.
Defined.

(** X13 at [ZPOPMIN 2] on m1 .. m5: m1 and m2 are returned and removed, m3
    stays. *)
Lemma zpop_witness :
  exists st',
    ZPOPMIN RefCodec.lexToFloat in_order 1 "z" 2 (five 100)
    = (st', Ret ({[ "m1" := f64_of_Z 1; "m2" := f64_of_Z 2 ]}, None))
    /\ find_item "z" "m1" (items st') = None
    /\ find_item "z" "m2" (items st') = None
    /\ find_item "z" "m3" (items st') = Some (scored "z" "m3" 3).
Proof.
  destruct (zpop_removes_exactly_what_it_returns RefCodec.lexToFloat in_order in_order_keys
              0 "z" 2 true (five 100) eq_refl (unique_keys_five 100)
              ltac:(unfold in_int64; lia) ltac:(vm_compute; lia)
              ltac:(vm_compute; reflexivity))
    as (st' & Hrun & Hgone & Hkept).
  assert (Hpopped : scores_of RefCodec.lexToFloat
                      (window 0 2 (entries "z" KeyOnly (LSI sk2) true (items (five 100)))) ∅
                    = {[ "m1" := f64_of_Z 1; "m2" := f64_of_Z 2 ]})
    by (vm_compute; reflexivity).
  cbv zeta in Hrun, Hgone, Hkept. rewrite Hpopped in Hrun, Hgone, Hkept.
  exists st'. split; [exact Hrun|].
  split; [apply Hgone; vm_compute; eauto|].
  split; [apply Hgone; vm_compute; eauto|].
  rewrite Hkept; [reflexivity|]. right. vm_compute. reflexivity.
Defined.

(** X14 at m1 of the set where m1 and m3 share the score 1 and m2 has 2: the
    rank 1 and the reverse rank 2 add up to 3 + 2 - 2. *)
Lemma ZRANK_plus_ZREVRANK_witness :
  snd (ZRANK RefCodec.floatToLex RefCodec.lexToFloat 6 "z" "m1" tied) = Ret (1, true, None)
  /\ snd (ZREVRANK RefCodec.floatToLex RefCodec.lexToFloat 6 "z" "m1" tied)
     = Ret (2, true, None)
  /\ 1 + 2
     = Z.of_nat (length (List.filter (selects "z" KeyOnly (LSI sk2)) (items tied)))
       + Z.of_nat (length (List.filter
                             (selects "z" (range_condition sk2 "300011" "300011") (LSI sk2))
                             (items tied)))
       - 2.
Proof.
  destruct (ZRANK_plus_ZREVRANK_counts_ties_twice RefCodec.floatToLex RefCodec.lexToFloat
              6 "z" "m1" tied "300011" eq_refl ltac:(vm_compute; lia)
              ltac:(vm_compute; reflexivity) ltac:(vm_compute; reflexivity))
    as (b & rank & revrank & Hb & Hrank & Hrev & Hsum).
  vm_compute in Hb. injection Hb as <-.
  assert (Hrank' : snd (ZRANK RefCodec.floatToLex RefCodec.lexToFloat 6 "z" "m1" tied)
                   = Ret (1, true, None)) by (vm_compute; reflexivity).
  assert (Hrev' : snd (ZREVRANK RefCodec.floatToLex RefCodec.lexToFloat 6 "z" "m1" tied)
                  = Ret (2, true, None)) by (vm_compute; reflexivity).
  rewrite Hrank' in Hrank. rewrite Hrev' in Hrev.
  injection Hrank as <-. injection Hrev as <-.
  split; [reflexivity|]. split; [reflexivity|]. exact Hsum.
Defined.

(** X15 on the line: of "near" and a member that is not stored, "near" is
    returned with its position; "far", which was not asked for, is not. *)
Lemma GEOPOS_witness :
  exists st' locations,
    GEOPOS Line.LatLng "g" ["near"; "nobody"] Line.places = (st', Ret (locations, None))
    /\ locations !! "near" = Some (Line.LatLng 1)
    /\ locations !! "nobody" = None
    /\ locations !! "far" = None.
Proof.
  destruct (GEOPOS_returns_the_stored_members_among_those_asked Line.LatLng "g"
              ["near"; "nobody"] Line.places eq_refl) as (st' & locations & Hrun & _ & Hlook).
  exists st', locations. split; [exact Hrun|].
  rewrite !Hlook. repeat split; vm_compute; reflexivity.
Defined.

(** X16 on the line: a at latitude 1 and b at latitude 2, added to an empty
    store and read back. *)
Lemma GEOADD_then_GEOPOS_witness :
  exists st1 st2 locations,
    GEOADD Line.CellIDFromLatLng "g" [("a", Line.LatLng 1); ("b", Line.LatLng 2)]
      (empty_store 100) = (st1, Ret (0, None))
    /\ GEOPOS Line.LatLng "g" ["a"; "b"] st1 = (st2, Ret (locations, None))
    /\ locations !! "b" = Some (Line.LatLng 2).
Proof.
  destruct (GEOADD_then_GEOPOS_returns_the_cell_centres Line.CellIDFromLatLng Line.LatLng
              "g" [("a", Line.LatLng 1); ("b", Line.LatLng 2)] (empty_store 100) eq_refl
              ltac:(repeat constructor; simpl; intuition discriminate))
    as (st1 & st2 & locations & Hadd & Hpos & Hlook & _).
  exists st1, st2, locations. split; [exact Hadd|]. split; [exact Hpos|].
  rewrite (Hlook "b" (Line.LatLng 2)) by (simpl; tauto).
  vm_compute. reflexivity.
Defined.

(** X18 on the line: the distance between "near" and "far" is found, and the
    distance between "near" and a member that is not stored is not. *)
Lemma GEODIST_witness :
  snd (GEODIST Line.LatLng Line.Distance "g" "near" "far" Kilometers Line.places)
  = Ret (DistanceTo Line.Distance (Line.LatLng 1) (Line.LatLng 2) Kilometers, true, None)
  /\ snd (GEODIST Line.LatLng Line.Distance "g" "near" "nobody" Kilometers Line.places)
     = Ret (f64_zero, false, None).
Proof.
  split.
  - rewrite (GEODIST_is_found_when_both_members_are_stored Line.LatLng Line.Distance
               "g" "near" "far" Kilometers Line.places eq_refl ltac:(discriminate)).
    vm_compute. reflexivity.
  - vm_compute. reflexivity.
Defined.

(** X19 on the line, with a hash that is the same everywhere. *)
Lemma GEOHASH_witness :
  snd (GEOHASH Line.LatLng (fun _ _ => "h") "g" ["near"; "nobody"; "far"] Line.places)
  = Ret (["h"; ""; "h"], None).
Proof.
  rewrite (GEOHASH_answers_every_member_in_order Line.LatLng (fun _ _ => "h")
             "g" ["near"; "nobody"; "far"] Line.places eq_refl).
  vm_compute. reflexivity.
Defined.

(** X20 on the line: the search for no more than 0 places. *)
Lemma GEORADIUS_without_a_positive_count_witness :
  georadius 3 "g" origin ten_thousand_km Meters 0 Line.places
  = (Line.places, Ret (∅, None)).
Proof.
  apply (GEORADIUS_without_a_positive_count_finds_nothing Line.LatLng Line.Distance
           Line.CellUnionBound Line.RangeMin Line.RangeMax "g" origin ten_thousand_km
           Meters 3 0 Line.places).
  lia.
Defined.

(** X21 on the line: both places lie within 20 000 km of the origin, and the
    search for one place returns one. *)
Lemma GEORADIUS_count_witness :
  exists st' ps err,
    georadius 3 "g" origin (f64_of_Z 20000000) Meters 1 Line.places = (st', Ret (ps, err))
    /\ Z.of_nat (size ps) <= 1.
Proof.
  assert (Hrun : georadius 3 "g" origin (f64_of_Z 20000000) Meters 1 Line.places
                 = (fst (georadius 3 "g" origin (f64_of_Z 20000000) Meters 1 Line.places),
                    Ret ({[ "near" := Line.LatLng 1 ]}, None)))
    by (vm_compute; reflexivity).
  eexists _, _, _. split; [exact Hrun|].
  apply (GEORADIUS_never_returns_more_than_count_positions Line.LatLng Line.Distance
           Line.CellUnionBound Line.RangeMin Line.RangeMax 3 "g" origin (f64_of_Z 20000000)
           Meters 1 Line.places _ _ _ ltac:(lia) Hrun).
Defined.

(** X22 at the scores 2 .. 4 of m1 .. m5: m3 is returned with 3 by both
    ranges, and m5 by neither. *)
Lemma ZRANGEBYSCORE_without_limit_witness :
  exists m,
    snd (ZRANGEBYSCORE RefCodec.floatToLex RefCodec.lexToFloat 1 "z" (f64_of_Z 2) (f64_of_Z 4)
           0 0 (five 100)) = Ret (m, None)
    /\ snd (ZREVRANGEBYSCORE RefCodec.floatToLex RefCodec.lexToFloat 1 "z" (f64_of_Z 4)
              (f64_of_Z 2) 0 0 (five 100)) = Ret (m, None)
    /\ m !! "m3" = Some (f64_of_Z 3)
    /\ m !! "m5" = None.
Proof.
  destruct (ZRANGEBYSCORE_without_limit_is_exact RefCodec.floatToLex RefCodec.lexToFloat
              0 "z" (f64_of_Z 2) (f64_of_Z 4) (big_of_Z 2) (big_of_Z 4) (five 100)
              eq_refl (unique_keys_five 100) ltac:(vm_compute; lia)
              ltac:(vm_compute; reflexivity) eq_refl eq_refl)
    as (m & Hfwd & Hrev & Hlook).
  exists m. split; [exact Hfwd|]. split; [exact Hrev|].
  rewrite !Hlook. split; vm_compute; reflexivity.
Defined.
